(** * langSwitch: artifact matching and the installation pipeline

    A shallow embedding of [langSwitch-v1.5.py]: the manifest matcher,
    the download loop, and the ordered installation stages of [main],
    with the host (file system, network, child processes, console) made
    explicit as a state that every step threads through. *)

From Stdlib Require Import ZArith Ascii String List Bool Lia.
From stdpp Require Import base option list gmap strings pretty sorting.

Local Open Scope string_scope.
Local Open Scope Z_scope.
Local Open Scope list_scope.

(** ** Python string operations *)

Module Str.

Definition nl : string := String (ascii_of_nat 10) EmptyString.
Definition dq : string := String (ascii_of_nat 34) EmptyString.
(** U+2022 as its UTF-8 bytes. *)
Definition bullet : string :=
  String (ascii_of_nat 226)
    (String (ascii_of_nat 128) (String (ascii_of_nat 162) EmptyString)).

(** [sub in s] *)
Fixpoint str_in (sub s : string) : bool :=
  String.prefix sub s
  || match s with
     | EmptyString => false
     | String _ s' => str_in sub s'
     end.

(** [s.endswith(suffix)] *)
Definition endswith (s suffix : string) : bool :=
  (String.length suffix <=? String.length s)%nat
  && String.eqb
       (String.substring (String.length s - String.length suffix)
                         (String.length suffix) s)
       suffix.

(** [sep.join(parts)] *)
Definition join (sep : string) (parts : list string) : string :=
  String.concat sep parts.

End Str.
Import Str.

(** ** Module-level constants *)

Definition FOD_FEATURE_KEYWORDS : list string :=
  [ "languagefeatures-basic-";
    "languagefeatures-ocr-";
    "languagefeatures-texttospeech-";
    "languagefeatures-fonts-" ].

(** [is_winpe(l)] *)
Definition is_winpe (l : string) : bool :=
  str_in "winpe" l || str_in "windows preinstallation environment" l.

(** [detect_arch()], as a function of [platform.machine().lower()];
    [None] is the branch that calls [fatal]. *)
Definition detect_arch (m : string) : option (string * string) :=
  if String.eqb m "amd64" || String.eqb m "x86_64" then Some ("x64", "amd64")
  else if String.eqb m "x86" || String.eqb m "i386" || String.eqb m "i686"
       then Some ("x86", "x86")
  else if String.eqb m "arm64" || String.eqb m "aarch64"
       then Some ("arm64", "arm64")
  else None.

(** [list(dict.fromkeys(lines))] at the end of [load_all_lines]: the
    first occurrence of every line, in order; [seen] are the keys
    already in the dict. *)
Fixpoint fromkeys_from (seen lines : list string) : list string :=
  match lines with
  | [] => []
  | x :: rest =>
      if existsb (String.eqb x) seen then fromkeys_from seen rest
      else x :: fromkeys_from (x :: seen) rest
  end.

Definition dict_fromkeys (lines : list string) : list string :=
  fromkeys_from [] lines.

(** ** The matcher: the [for line in lines] loop of [main] *)

Section Matcher.

(** [urllib.parse.unquote] and [str.lower] are library functions; the
    matcher is stated for any pair of them. *)
Variable unquote : string -> string.
Variable lower : string -> string.

Variables lang arch_path arch_token : string.

Definition lep_segment : string :=
  "/localexperiencepack/" +:+ lang +:+ "/".
Definition language_pack_cab : string :=
  "microsoft-windows-client-language-pack_" +:+ arch_path +:+ "_"
    +:+ lang +:+ ".cab".
Definition fod_conditions (l : string) : bool :=
  str_in "microsoft-windows-languagefeatures-" l
  && str_in ("-" +:+ lang +:+ "-package") l
  && str_in ("~" +:+ arch_token +:+ "~~.cab") l.

(** [for k in FOD_FEATURE_KEYWORDS: if k in l: found.append(line); break] *)
Fixpoint fod_loop (ks : list string) (l line : string)
         (found : list string) : list string :=
  match ks with
  | [] => found
  | k :: ks' =>
      if str_in k l then found ++ [line]
      else fod_loop ks' l line found
  end.

(** One iteration of the loop body, on the accumulator [found]. *)
Definition match_line (found : list string) (line : string) : list string :=
  let u := unquote line in
  let l := lower u in
  if is_winpe l then found
  else if str_in lep_segment l then
    if endswith l ".appx" || endswith l "license.xml"
    then found ++ [line]
    else found
  else if str_in language_pack_cab l then found ++ [line]
  else if fod_conditions l then fod_loop FOD_FEATURE_KEYWORDS l line found
  else found.

(** [found] after the loop. *)
Definition find_matches (lines : list string) : list string :=
  fold_left match_line lines [].

End Matcher.

(** ** ASCII instances of the library functions

    On ASCII text without escapes above [%7F] these agree with Python's
    [unquote], [str.lower] and [Path(...).name]; they are used to run the
    model on concrete manifests. *)

Module AsciiLib.

Definition lower_char (c : ascii) : ascii :=
  let n := nat_of_ascii c in
  if ((65 <=? n) && (n <=? 90))%nat then ascii_of_nat (n + 32) else c.

Fixpoint lower (s : string) : string :=
  match s with
  | EmptyString => EmptyString
  | String c s' => String (lower_char c) (lower s')
  end.

Definition hex_digit (c : ascii) : option nat :=
  let n := nat_of_ascii c in
  if ((48 <=? n) && (n <=? 57))%nat then Some (n - 48)%nat
  else if ((65 <=? n) && (n <=? 70))%nat then Some (n - 55)%nat
  else if ((97 <=? n) && (n <=? 102))%nat then Some (n - 87)%nat
  else None.

(** [%XY] with two hexadecimal digits becomes the character of that
    code; any other [%] is kept. *)
Fixpoint unquote (s : string) : string :=
  match s with
  | EmptyString => EmptyString
  | String c s' =>
      match s' with
      | String a (String b rest) =>
          match Ascii.eqb c "%", hex_digit a, hex_digit b with
          | true, Some x, Some y =>
              String (ascii_of_nat (16 * x + y)) (unquote rest)
          | _, _, _ => String c (unquote s')
          end
      | _ => String c (unquote s')
      end
  end.

Definition is_sep (c : ascii) : bool :=
  Ascii.eqb c "/" || Ascii.eqb c "\".

(** Final path component: [cur] is the component being read, [last]
    the most recent complete one that is neither empty nor [.]. *)
Fixpoint name_go (cur last : string) (s : string) : string :=
  let pick := if String.eqb cur EmptyString || String.eqb cur "."
              then last else cur in
  match s with
  | EmptyString => pick
  | String c s' =>
      if is_sep c then name_go EmptyString pick s'
      else name_go (cur +:+ String c EmptyString) last s'
  end.

Definition Path_name (s : string) : string :=
  name_go EmptyString EmptyString s.

End AsciiLib.

(** ** The host: file system, network, child processes, console *)

(** A [Path]: [parent / name]. *)
Record path : Type := MkPath { parent : string; name : string }.

(** [str(p)] on Windows. *)
Definition path_str (p : path) : string := parent p +:+ "\" +:+ name p.

Inductive event : Type :=
| EvLog (level message : string)          (* [log(level, message)] *)
| EvPanel (text : string)                 (* [panel(text, ...)] *)
| EvPrint (text : string)                 (* [console.print] / [console.rule] *)
| EvInput                                 (* [input()] / [console.input] *)
| EvMkdir (dir : string)                  (* [dest.parent.mkdir] *)
| EvUrlopen (url : string)                (* [urllib.request.urlopen(url)] *)
| EvOpenWb (dest : string)                (* [open(dest, "wb")] *)
| EvChunk (dest chunk : string)           (* [f.write(chunk)] *)
| EvPopen (cmd : list string) (ret : Z)   (* [subprocess.Popen] ... [p.wait()] *)
| EvSubprocessRun (cmd : list string).    (* [subprocess.run(cmd, check=False)] *)

(** What [urlopen(url)] gives: [None] when it raises, otherwise the
    successive results of [r.read(...)], where [None] is a read that
    raises; past the end of the list a read returns no bytes. *)
Definition response : Type := option (list (option string)).

Record host : Type := MkHost {
  fs : gmap string string;            (* files on disk, by path *)
  net : string -> response;           (* the network, by url *)
  exit_code : nat -> list string -> Z;
    (* exit code of the n-th child process started through [run] *)
  child_disk : nat -> list string -> gmap string string
               -> gmap string string;
    (* the disk the n-th child process leaves, from its command and the
       disk it found: [dism] and the PowerShell scripts write files *)
  spawned : nat;                      (* children started so far *)
  reboot_answer : string              (* [ans] in [prompt_reboot] *)
}.

Inductive outcome (A : Type) : Type :=
| Ret (a : A)
| Exit (code : Z)        (* [sys.exit(code)] *)
| Raise (exn : string).  (* an exception nothing catches *)
Arguments Ret {A} a.
Arguments Exit {A} code.
Arguments Raise {A} exn.

(** A step ends in an outcome, leaves a host, and has done [evs], in
    order. *)
Record result (A : Type) : Type := Res {
  outc : outcome A;
  post : host;
  evs : list event
}.
Arguments Res {A} outc post evs.
Arguments outc {A} r.
Arguments post {A} r.
Arguments evs {A} r.

Definition M (A : Type) : Type := host -> result A.

Definition ret {A} (a : A) : M A := fun h => Res (Ret a) h [].
Definition bind {A B} (m : M A) (k : A -> M B) : M B :=
  fun h =>
    let r := m h in
    match outc r with
    | Ret a =>
        let r' := k a (post r) in
        Res (outc r') (post r') (evs r ++ evs r')
    | Exit c => Res (Exit c) (post r) (evs r)
    | Raise e => Res (Raise e) (post r) (evs r)
    end.
Definition sys_exit {A} (code : Z) : M A := fun h => Res (Exit code) h [].
Definition raise {A} (exn : string) : M A := fun h => Res (Raise exn) h [].

Declare Scope prog_scope.
Delimit Scope prog_scope with prog.
Notation "x <- m ;; k" := (bind m (fun x => k))
  (at level 100, m at next level, right associativity) : prog_scope.
Notation "m ;; k" := (bind m (fun _ => k))
  (at level 100, right associativity) : prog_scope.
Local Open Scope prog_scope.

Definition emit (e : event) : M unit := fun h => Res (Ret tt) h [e].

Definition set_fs (f : gmap string string -> gmap string string) : M unit :=
  fun h =>
    Res (Ret tt)
        {| fs := f (fs h); net := net h; exit_code := exit_code h;
           child_disk := child_disk h;
           spawned := spawned h; reboot_answer := reboot_answer h |}
        [].

Definition log (level message : string) : M unit := emit (EvLog level message).
Definition panel (text : string) : M unit := emit (EvPanel text).

(** [pause_exit(code)] *)
Definition pause_exit {A} (code : Z) : M A :=
  emit (EvPrint (nl +:+ "[bold cyan]Press Enter to exit...[/bold cyan]")) ;;
  emit EvInput ;;
  sys_exit code.

(** [fatal(msg, code=1)] *)
Definition fatal {A} (msg : string) : M A :=
  log "FAIL" msg ;; pause_exit 1.

(** The host once its next child, started with [cmd], has run. *)
Definition after_child (cmd : list string) (h : host) : host :=
  {| fs := child_disk h (spawned h) cmd (fs h);
     net := net h; exit_code := exit_code h;
     child_disk := child_disk h;
     spawned := S (spawned h); reboot_answer := reboot_answer h |}.

(** [subprocess.Popen(cmd, ...)] followed by [p.wait()]; the echo of the
    child's output lines is console-only and left out. *)
Definition popen_wait (cmd : list string) : M Z :=
  fun h =>
    let r := exit_code h (spawned h) cmd in
    Res (Ret r) (after_child cmd h) [EvPopen cmd r].

(** [subprocess.run(cmd, check=False)] *)
Definition subprocess_run (cmd : list string) : M unit :=
  fun h => Res (Ret tt) (after_child cmd h) [EvSubprocessRun cmd].

(** [run(cmd)] *)
Definition run (cmd : list string) : M unit :=
  log "INFO" ("Running: " +:+ join " " cmd) ;;
  r <- popen_wait cmd ;;
  if r =? 0 then ret tt
  else fatal ("Command failed with exit code " +:+ pretty r).

(** ** Download *)

(** [p.exists()] *)
Definition path_exists (p : path) : M bool :=
  fun h => Res (Ret (bool_decide (is_Some (fs h !! path_str p)))) h [].

(** [urllib.request.urlopen(url)] *)
Definition urlopen (url : string) : M (list (option string)) :=
  emit (EvUrlopen url) ;;
  fun h =>
    match net h url with
    | None => Res (Raise "URLError") h []
    | Some reads => Res (Ret reads) h []
    end.

(** [open(dest, "wb")]: the file is created, or truncated. *)
Definition open_wb (dest : string) : M unit :=
  emit (EvOpenWb dest) ;; set_fs (fun m => <[dest := EmptyString]> m).

(** [f.write(chunk)] *)
Definition write_chunk (dest chunk : string) : M unit :=
  emit (EvChunk dest chunk) ;;
  set_fs (fun m => alter (fun c => c +:+ chunk) dest m).

(** The [while True] loop of [download_file] over the reads of [r]. *)
Fixpoint read_loop (dest : string) (reads : list (option string)) : M unit :=
  match reads with
  | [] => ret tt
  | None :: _ => raise "OSError"
  | Some chunk :: rest =>
      if String.eqb chunk EmptyString then ret tt
      else write_chunk dest chunk ;; read_loop dest rest
  end.

(** [download_file(url, dest)]; the progress bar and the content length
    it shows are console-only and left out. *)
Definition download_file (url : string) (dest : path) : M unit :=
  emit (EvMkdir (parent dest)) ;;
  present <- path_exists dest ;;
  if present : bool then log "DEBUG" ("Already exists: " +:+ name dest)
  else
    log "INFO" ("Downloading " +:+ name dest) ;;
    reads <- urlopen url ;;
    open_wb (path_str dest) ;;
    read_loop (path_str dest) reads ;;
    log "SUCCESS" "Download complete.".

(** ** The locale commands *)

(** [ps_cmd] as built from [extend] and [preserve]. *)
Definition ps_cmd (extend preserve : bool) (lang : string) : string :=
  if extend then
    if preserve then
      "$list = Get-WinUserLanguageList; "
      +:+ "if ($list.LanguageTag -notcontains '" +:+ lang +:+ "') { "
      +:+ "$list.Add('" +:+ lang +:+ "') }; "
      +:+ "Set-WinUserLanguageList $list -Force; "
      +:+ "Set-WinUILanguageOverride -Language " +:+ lang +:+ "; "
      +:+ "Set-WinSystemLocale -SystemLocale " +:+ lang
    else
      "$list = Get-WinUserLanguageList | "
      +:+ "Where-Object { $_.LanguageTag -ne '" +:+ lang +:+ "' }; "
      +:+ "$new = New-WinUserLanguageList '" +:+ lang +:+ "'; "
      +:+ "$new.AddRange($list); "
      +:+ "Set-WinUserLanguageList $new -Force; "
      +:+ "Set-WinUILanguageOverride -Language " +:+ lang +:+ "; "
      +:+ "Set-WinSystemLocale -SystemLocale " +:+ lang
  else
    "Set-WinUILanguageOverride -Language " +:+ lang +:+ "; "
    +:+ "$list = New-WinUserLanguageList '" +:+ lang +:+ "'; "
    +:+ "Set-WinUserLanguageList $list -Force; "
    +:+ "Set-WinSystemLocale -SystemLocale " +:+ lang.

(** [ps_cmd_login] *)
Definition ps_cmd_login (lang : string) : string :=
  nl +:+ "$xml = @" +:+ dq +:+ nl
  +:+ "<gs:GlobalizationServices xmlns:gs=" +:+ dq
  +:+ "urn:longhornGlobalizationUnattend" +:+ dq +:+ ">" +:+ nl
  +:+ "  <gs:UserList>" +:+ nl
  +:+ "    <gs:User UserID=" +:+ dq +:+ "Current" +:+ dq +:+ "/>" +:+ nl
  +:+ "    <gs:User UserID=" +:+ dq +:+ "System" +:+ dq +:+ "/>" +:+ nl
  +:+ "  </gs:UserList>" +:+ nl
  +:+ "  <gs:UILanguagePreferences>" +:+ nl
  +:+ "    <gs:UILanguage Value=" +:+ dq +:+ lang +:+ dq +:+ "/>" +:+ nl
  +:+ "  </gs:UILanguagePreferences>" +:+ nl
  +:+ "</gs:GlobalizationServices>" +:+ nl
  +:+ dq +:+ "@" +:+ nl
  +:+ nl
  +:+ "$path = " +:+ dq +:+ "$env:TEMP\intl.xml" +:+ dq +:+ nl
  +:+ "$xml | Out-File -Encoding UTF8 $path" +:+ nl
  +:+ nl
  +:+ "control.exe " +:+ dq +:+ "intl.cpl,,/f:$path" +:+ dq +:+ nl.

Definition dism_cmd (cab : path) : list string :=
  [ "dism"; "/Online"; "/Add-Package";
    "/PackagePath:" +:+ path_str cab; "/NoRestart" ].

Definition provision_cmd (lep : path) (lic : option path) : list string :=
  [ "powershell"; "-NoProfile"; "-Command";
    match lic with
    | Some lic =>
        "Add-AppxProvisionedPackage -Online -PackagePath '" +:+ path_str lep
        +:+ "' -LicensePath '" +:+ path_str lic +:+ "'"
    | None =>
        "Add-AppxProvisionedPackage -Online -PackagePath '" +:+ path_str lep
        +:+ "' -SkipLicense"
    end ].

Definition powershell_cmd (script : string) : list string :=
  [ "powershell"; "-NoProfile"; "-ExecutionPolicy"; "Bypass";
    "-Command"; script ].

(** [prompt_reboot()], with [ans] read from the host. *)
Definition prompt_reboot : M unit :=
  emit (EvPrint (nl +:+ "Reboot now to apply changes? ([Y]/n): ")) ;;
  emit EvInput ;;
  fun h =>
    let ans := reboot_answer h in
    (if String.eqb ans EmptyString || String.eqb ans "y" || String.eqb ans "yes"
     then
       log "INFO" "Rebooting system now" ;;
       subprocess_run ["shutdown"; "/r"; "/t"; "0"]
     else
       log "WARN"
         "Reboot skipped. Please reboot manually to apply language changes." ;;
       pause_exit 0) h.

(** ** [main], from the matching loop on *)

Section Main.

Variable unquote : string -> string.
Variable lower : string -> string.
(** [Path(s).name] *)
Variable Path_name : string -> string.
(** [str(APPX_DIR)] and [str(CAB_DIR)] *)
Variables APPX_DIR CAB_DIR : string.

(** The selection made before the matching loop. *)
Variables lang arch_path arch_token : string.
Variables preserve extend DRY_RUN : bool.

Definition is_package_name (n : string) : bool :=
  endswith (lower n) ".appx" || String.eqb (lower n) "license.xml".

(** [for url in found], on the accumulators [appx_files], [cab_files]. *)
Fixpoint transfer (found : list string) (appx_files cab_files : list path)
  : M (list path * list path) :=
  match found with
  | [] => ret (appx_files, cab_files)
  | url :: rest =>
      let n := Path_name (unquote url) in
      if is_package_name n then
        let dest := MkPath APPX_DIR n in
        download_file url dest ;;
        transfer rest (appx_files ++ [dest]) cab_files
      else
        let dest := MkPath CAB_DIR n in
        download_file url dest ;;
        transfer rest appx_files (cab_files ++ [dest])
  end.

(** [for i, cab in enumerate(cab_files, 1)]; [total] is
    [len(cab_files)]. *)
Fixpoint install_cabs (i total : nat) (cabs : list path) : M unit :=
  match cabs with
  | [] => ret tt
  | cab :: rest =>
      log "INFO" ("Installing CAB " +:+ pretty i +:+ "/" +:+ pretty total
                  +:+ ": " +:+ name cab) ;;
      run (dism_cmd cab) ;;
      log "SUCCESS" ("Installed " +:+ name cab) ;;
      install_cabs (S i) total rest
  end.

Definition find_lep (appx_files : list path) : option path :=
  find (fun x => str_in "languageexperiencepack" (lower (name x))) appx_files.
Definition find_lic (appx_files : list path) : option path :=
  find (fun x => String.eqb (lower (name x)) "license.xml") appx_files.

Definition install_experience_pack (appx_files : list path) : M unit :=
  match find_lep appx_files with
  | Some lep =>
      log "INFO" "Installing Language Experience Pack" ;;
      run (provision_cmd lep (find_lic appx_files))
  | None => log "WARN" "No Language Experience Pack found"
  end.

Definition apply_locale : M unit :=
  log "INFO" "Applying language settings to current user and system" ;;
  run (powershell_cmd (ps_cmd extend preserve lang)) ;;
  log "SUCCESS" ("Language '" +:+ lang +:+ "' set as system UI language") ;;
  log "INFO" "Applying language to system login / welcome screen" ;;
  run (powershell_cmd (ps_cmd_login lang)).

Definition finish : M unit :=
  emit (EvPrint nl) ;;
  emit (EvPrint " FINISHED ") ;;
  emit (EvPrint nl) ;;
  panel ("Installation complete." +:+ nl +:+ nl
         +:+ "Note:" +:+ nl
         +:+ bullet
         +:+ " DISM may report 'RestartNeeded : False' for individual packages."
         +:+ nl +:+ bullet
         +:+ " This is normal and does NOT indicate completion of language activation."
         +:+ nl +:+ nl
         +:+ "A reboot IS REQUIRED to activate the new display language.") ;;
  prompt_reboot.

(** Everything after the downloads. *)
Definition install (appx_files cab_files : list path) : M unit :=
  (if DRY_RUN then
     log "WARN" "Dry-run enabled: installation skipped" ;; pause_exit 0
   else ret tt) ;;
  panel "Installing CAB packages" ;;
  install_cabs 1 (length cab_files) cab_files ;;
  install_experience_pack appx_files ;;
  apply_locale ;;
  finish.

Definition file_list (found : list string) : string :=
  join nl (map (fun f => bullet +:+ " " +:+ Path_name (unquote f)) found).

Definition main (lines : list string) : M unit :=
  let found := find_matches unquote lower lang arch_path arch_token lines in
  (match found with
   | [] => fatal "No matching files found"
   | _ :: _ => ret tt
   end) ;;
  panel (file_list found) ;;
  files <- transfer found [] [] ;;
  install (fst files) (snd files).

End Main.

(** ** Splitting strings *)

(** [s[n:]] *)
Fixpoint str_drop (n : nat) (s : string) : string :=
  match n, s with
  | O, _ => s
  | S n', String _ s' => str_drop n' s'
  | S _, EmptyString => EmptyString
  end.

(** [s.partition(sep)] when [sep] occurs in [s]: the text before the
    leftmost occurrence and the text after it; [None] when [sep] does
    not occur. *)
Fixpoint str_partition (sep s : string) : option (string * string) :=
  if String.prefix sep s
  then Some (EmptyString, str_drop (String.length sep) s)
  else match s with
       | EmptyString => None
       | String c s' =>
           match str_partition sep s' with
           | Some (before, after) => Some (String c before, after)
           | None => None
           end
       end.

(** [s.split(sep)] for a non-empty [sep], cutting at most [n] times. *)
Fixpoint split_upto (n : nat) (sep s : string) : list string :=
  match n with
  | O => [s]
  | S n' =>
      match str_partition sep s with
      | Some (before, after) => before :: split_upto n' sep after
      | None => [s]
      end
  end.

(** [s.split(sep)] for a non-empty [sep]: a string of length [n] has
    at most [n] occurrences that do not overlap. *)
Definition str_split (sep s : string) : list string :=
  split_upto (String.length s) sep s.

(** [sorted(...)] on strings. *)
Definition sorted (l : list string) : list string :=
  merge_sort String.le l.

(** ** [extract_languages] *)

Section ExtractLanguages.

Variable unquote : string -> string.
Variable lower : string -> string.

(** The [for l in lines] loop on the set [langs]; [None] is an
    [IndexError] at [u.split(...)[1]]. *)
Fixpoint extract_loop (lines : list string) (langs : gset string)
  : option (gset string) :=
  match lines with
  | [] => Some langs
  | l :: rest =>
      let u := lower (unquote l) in
      if str_in "/localexperiencepack/" u then
        match str_split "/localexperiencepack/" u with
        | _ :: piece :: _ =>
            match str_split "/" piece with
            | first :: _ :: _ => extract_loop rest ({[ first ]} ∪ langs)
            | _ => extract_loop rest langs
            end
        | _ => None
        end
      else extract_loop rest langs
  end.

Definition extract_languages (lines : list string) : option (list string) :=
  match extract_loop lines ∅ with
  | Some langs => Some (sorted (elements langs))
  | None => None
  end.

End ExtractLanguages.

(** ** [select_language] *)

Definition COMMON_LANGS : list string :=
  [ "en-us"; "es-es"; "fr-fr"; "de-de"; "it-it"; "pt-br"; "ru-ru";
    "zh-cn"; "zh-tw"; "ja-jp"; "ko-kr" ].

Definition LANG_LABELS : list (string * string) :=
  [ ("en-us", "English (United States)");
    ("es-es", "Spanish (Spain)");
    ("fr-fr", "French (France)");
    ("de-de", "German (Germany)");
    ("it-it", "Italian (Italy)");
    ("pt-br", "Portuguese (Brazil)");
    ("ru-ru", "Russian (Russia)");
    ("zh-cn", "Chinese (Simplified)");
    ("zh-tw", "Chinese (Traditional)");
    ("ja-jp", "Japanese");
    ("ko-kr", "Korean") ].

(** [d.get(key, default)] on a dict written as its items. *)
Fixpoint dict_get (d : list (string * string)) (key default : string)
  : string :=
  match d with
  | [] => default
  | (k, v) :: rest => if String.eqb k key then v else dict_get rest key default
  end.

(** U+2014 as its UTF-8 bytes. *)
Definition em_dash : string :=
  String (ascii_of_nat 226)
    (String (ascii_of_nat 128) (String (ascii_of_nat 148) EmptyString)).

(** [label(l)] *)
Definition label (l : string) : string :=
  l +:+ " " +:+ em_dash +:+ " " +:+ dict_get LANG_LABELS l "Unknown".

(** [{label(l): l for l in ls}]: a later entry replaces an earlier one
    with the same key. *)
Definition choices_of (ls : list string) : gmap string string :=
  fold_left (fun m l => <[label l := l]> m) ls ∅.

(** How [select_language] ends. *)
Inductive selection : Type :=
| Selected (lang : string)   (* [return ...] *)
| Cancelled                  (* [fatal("Cancelled by user")] *)
| KeyError                   (* [all_choices[sub]] without that key *)
| MenuOpen.                  (* the prompt waits for the next answer *)

(** The [while True] loop over the successive results of [.ask()]:
    [None] is a prompt that was interrupted. *)
Fixpoint select_loop (common_choices all_choices : gmap string string)
         (answers : list (option string)) : selection :=
  match answers with
  | [] => MenuOpen
  | choice :: rest =>
      match choice ≫= (fun c => common_choices !! c) with
      | Some l => Selected l
      | None =>
          match choice with
          | Some c =>
              if String.eqb c "Show all languages" then
                match rest with
                | [] => MenuOpen
                | sub :: rest' =>
                    match sub with
                    | Some s =>
                        if negb (String.eqb s EmptyString)
                           && negb (String.eqb s "Back")
                        then match all_choices !! s with
                             | Some l => Selected l
                             | None => KeyError
                             end
                        else select_loop common_choices all_choices rest'
                    | None => select_loop common_choices all_choices rest'
                    end
                end
              else if String.eqb c "Exit" then Cancelled
              else select_loop common_choices all_choices rest
          | None => Cancelled
          end
      end
  end.

Definition select_language (langs : list string)
           (answers : list (option string)) : selection :=
  let langs := sorted (elements (list_to_set langs : gset string)) in
  let common :=
    List.filter (fun l => bool_decide (l ∈ langs)) COMMON_LANGS in
  select_loop (choices_of common) (choices_of langs) answers.

(** ** [load_all_lines] *)

Section LoadAllLines.

(** [str.splitlines] and [str.strip] are library functions. *)
Variable splitlines : string -> list string.
Variable strip : string -> string.

(** [p.read_text(encoding="utf-8")] *)
Definition read_text (p : path) : M string :=
  fun h =>
    match fs h !! path_str p with
    | Some text => Res (Ret text) h []
    | None => Res (Raise "FileNotFoundError") h []
    end.

(** [l.strip() for l in text.splitlines() if l.strip()] *)
Definition stripped_lines (text : string) : list string :=
  map strip
      (List.filter (fun l => negb (String.eqb (strip l) EmptyString))
                   (splitlines text)).

(** The [for p in paths] loop on the accumulator [lines]. *)
Fixpoint load_loop (paths : list path) (lines : list string)
  : M (list string) :=
  match paths with
  | [] => ret lines
  | p :: rest =>
      (present <- path_exists p ;;
       (if present : bool then ret tt
        else fatal ("Missing file: " +:+ path_str p)) ;;
       text <- read_text p ;;
       load_loop rest (lines ++ stripped_lines text))%prog
  end.

Definition load_all_lines (paths : list path) : M (list string) :=
  (lines <- load_loop paths [] ;;
   ret (dict_fromkeys lines))%prog.

End LoadAllLines.
(** * Notions used to state the properties *)

(** ** What the matcher keeps *)

Section Accepted.

Variable unquote : string -> string.
Variable lower : string -> string.
Variables lang arch_path arch_token : string.

(** Whether the loop body appends [line]. *)
Definition accepted (line : string) : bool :=
  let l := lower (unquote line) in
  negb (is_winpe l)
  && (if str_in (lep_segment lang) l
      then endswith l ".appx" || endswith l "license.xml"
      else str_in (language_pack_cab lang arch_path) l
           || (fod_conditions lang arch_token l
               && existsb (fun k => str_in k l) FOD_FEATURE_KEYWORDS)).

End Accepted.

(** ** Reading a run's events *)

(** Events that start a process on the host. *)
Definition is_invocation (e : event) : bool :=
  match e with
  | EvPopen _ _ | EvSubprocessRun _ => true
  | _ => false
  end.

(** The processes a run started on the host, in order. *)
Definition invocations (es : list event) : list event :=
  List.filter is_invocation es.

(** Events that open a network connection. *)
Definition is_transfer (e : event) : bool :=
  match e with
  | EvUrlopen _ => true
  | _ => false
  end.

(** Events that create or write a file. *)
Definition is_file_write (e : event) : bool :=
  match e with
  | EvOpenWb _ | EvChunk _ _ => true
  | _ => false
  end.

(** Every event of every run of [m] satisfies [P]. *)
Definition evs_all {A} (P : event -> Prop) (m : M A) : Prop :=
  forall h, Forall P (evs (m h)).

Definition quiet (e : event) : Prop := is_invocation e = false.

(** A step never removes a file. *)
Definition keeps_files {A} (m : M A) : Prop :=
  forall h p, is_Some (fs h !! p) -> is_Some (fs (post (m h)) !! p).

(** A [run] event, if any, is a PowerShell command. *)
Definition powershell_only (e : event) : Prop :=
  forall cmd r, e = EvPopen cmd r -> hd EmptyString cmd = "powershell".

(** The events of [fatal(msg)]. *)
Definition fatal_events (msg : string) : list event :=
  [ EvLog "FAIL" msg;
    EvPrint (nl +:+ "[bold cyan]Press Enter to exit...[/bold cyan]");
    EvInput ].

(** ** The download plan as a function of [found] *)

Section Plan.

Variable unquote : string -> string.
Variable lower : string -> string.
Variable Path_name : string -> string.
Variables APPX_DIR CAB_DIR : string.

Definition is_package_url (url : string) : bool :=
  is_package_name lower (Path_name (unquote url)).

(** [dest] for [url] in the download loop. *)
Definition dest_of (url : string) : path :=
  if is_package_url url
  then MkPath APPX_DIR (Path_name (unquote url))
  else MkPath CAB_DIR (Path_name (unquote url)).

Definition appx_dests (found : list string) : list path :=
  map dest_of (List.filter is_package_url found).

Definition cab_dests (found : list string) : list path :=
  map dest_of (List.filter (fun url => negb (is_package_url url)) found).

(** The events of the download loop when every destination is
    already there. *)
Definition skip_events (found : list string) : list event :=
  flat_map (fun url =>
              [ EvMkdir (parent (dest_of url));
                EvLog "DEBUG" ("Already exists: " +:+ name (dest_of url)) ])
           found.

End Plan.

(** ** The stages after the cabinets *)

Section Later.

Variable lower : string -> string.
Variable lang : string.
Variables preserve extend : bool.

Definition later (appx_files : list path) : M unit :=
  (install_experience_pack lower appx_files ;;
   apply_locale lang preserve extend ;;
   finish)%prog.

(** The invocations of a cabinet loop in which every [dism] exits
    with 0. *)
Definition installed (cabs : list path) : list event :=
  map (fun c => EvPopen (dism_cmd c) 0) cabs.

End Later.

(** ** More ways to read a run *)

(** Console output and console input. *)
Definition is_console (e : event) : bool :=
  match e with
  | EvLog _ _ | EvPanel _ | EvPrint _ | EvInput => true
  | _ => false
  end.

(** What the installation stages can do: console and processes. *)
Definition is_install_event (e : event) : bool :=
  is_console e || is_invocation e.

(** What the stages that call [run] can do: console and [run]'s
    processes. *)
Definition is_run_event (e : event) : bool :=
  match e with
  | EvPopen _ _ => true
  | _ => is_console e
  end.

(** Every child process exits with 0. *)
Definition all_zero (h : host) : Prop :=
  forall n cmd, exit_code h n cmd = 0.

(** [ans in ("", "y", "yes")] *)
Definition wants_reboot (h : host) : bool :=
  String.eqb (reboot_answer h) EmptyString
  || String.eqb (reboot_answer h) "y"
  || String.eqb (reboot_answer h) "yes".

(** The last two events of [pause_exit]. *)
Definition pause_events : list event :=
  [ EvPrint (nl +:+ "[bold cyan]Press Enter to exit...[/bold cyan]");
    EvInput ].

Definition shutdown_cmd : list string := ["shutdown"; "/r"; "/t"; "0"].

(** The bytes the read loop writes: the chunks up to the first empty
    chunk, failing read or end of the response. *)
Fixpoint received (reads : list (option string)) : string :=
  match reads with
  | Some chunk :: rest =>
      if String.eqb chunk EmptyString then EmptyString
      else chunk +:+ received rest
  | _ => EmptyString
  end.

(** Whether the read loop ends without a failing read. *)
Fixpoint complete (reads : list (option string)) : bool :=
  match reads with
  | [] => true
  | None :: _ => false
  | Some chunk :: rest =>
      if String.eqb chunk EmptyString then true else complete rest
  end.

(** A step takes every host to one related to it by [R]. *)
Definition respects {A} (R : host -> host -> Prop) (m : M A) : Prop :=
  forall h, R h (post (m h)).

(** Every file of [h] is in [h'] with the same content. *)
Definition same_content (h h' : host) : Prop :=
  forall p c, fs h !! p = Some c -> fs h' !! p = Some c.

(** The disk is the same. *)
Definition same_disk (h h' : host) : Prop := fs h' = fs h.

(** The network, the exit codes, what the children do to the disk and
    the reboot answer are the same. *)
Definition same_oracles (h h' : host) : Prop :=
  net h' = net h
  /\ exit_code h' = exit_code h
  /\ child_disk h' = child_disk h
  /\ reboot_answer h' = reboot_answer h.

(** No child process of [h] touches the path [p]. *)
Definition children_skip (p : string) (h : host) : Prop :=
  forall n cmd disk, child_disk h n cmd disk !! p = disk !! p.

(** From [h] to [h']: if [p] holds [c] and no child touches [p], the
    same is true afterwards. *)
Definition kept (p c : string) (h h' : host) : Prop :=
  children_skip p h -> fs h !! p = Some c ->
  children_skip p h' /\ fs h' !! p = Some c.

(** From [h] to [h']: if no child touches [p], then [p] is as it was
    and still no child touches it. *)
Definition untouched (p : string) (h h' : host) : Prop :=
  children_skip p h -> children_skip p h' /\ fs h' !! p = fs h !! p.


(** A step that never ends with an exception. *)
Definition settled {A} (m : M A) : Prop :=
  forall h exn, outc (m h) <> Raise exn.



(** What [log("WARN", msg)] followed by [pause_exit(0)] does. *)
Definition warn_exit_events (msg : string) : list event :=
  EvLog "WARN" msg :: pause_events.

(** How a step may end the process: with code 1 after a [FAIL] line
    and the pause, or with code 0 after a [WARN] line and the pause. *)
Definition graceful {A} (r : result A) : Prop :=
  forall c,
    outc r = Exit c ->
    (c = 1 /\ exists pre msg, evs r = pre ++ fatal_events msg)
    \/ (c = 0 /\ exists pre msg, evs r = pre ++ warn_exit_events msg).

(** A child that exits with a non-zero code is followed by the events
    of [fatal] and nothing else, and the step ends with code 1. *)
Definition halts_on_failure {A} (r : result A) : Prop :=
  forall pre cmd code rest,
    evs r = pre ++ EvPopen cmd code :: rest ->
    code <> 0 ->
    outc r = Exit 1
    /\ rest = fatal_events ("Command failed with exit code " +:+ pretty code).

(** Both. *)
Definition orderly {A} (r : result A) : Prop :=
  graceful r /\ halts_on_failure r.

(** ** Sample manifests and hosts *)

Module Sample.

Definition lang_pack_x64 : string :=
  "https://h/lp/Microsoft-Windows-Client-Language-Pack_x64_fr-fr.cab".
Definition license : string :=
  "https://h/LocalExperiencePack/fr-fr/License.xml".
Definition lep_appx : string :=
  "https://h/LocalExperiencePack/fr-fr/LanguageExperiencePack.fr-FR.Neutral.appx".
Definition fod_basic : string :=
  "https://h/fod/Microsoft-Windows-LanguageFeatures-Basic-fr-fr-Package~31bf3856ad364e35~amd64~~.cab".
Definition fod_ocr : string :=
  "https://h/fod/Microsoft-Windows-LanguageFeatures-OCR-fr-fr-Package~31bf3856ad364e35~amd64~~.cab".
(** Two feature keywords in one reference. *)
Definition fod_two_keywords : string :=
  "https://h/languagefeatures-ocr-/Microsoft-Windows-LanguageFeatures-Basic-fr-fr-Package~31bf3856ad364e35~amd64~~.cab".
Definition winpe_lang_pack : string :=
  "https://h/WinPE/Microsoft-Windows-Client-Language-Pack_x64_fr-fr.cab".
Definition winpe_fod_two_keywords : string :=
  "https://h/WinPE/languagefeatures-ocr-/Microsoft-Windows-LanguageFeatures-Basic-fr-fr-Package~31bf3856ad364e35~amd64~~.cab".
(** Under the experience-pack segment, but a cabinet by name. *)
Definition lep_dir_lang_pack : string :=
  "https://h/LocalExperiencePack/fr-fr/Microsoft-Windows-Client-Language-Pack_x64_fr-fr.cab".
Definition lep_dir_fod_two_keywords : string :=
  "https://h/LocalExperiencePack/fr-fr/languagefeatures-ocr-/Microsoft-Windows-LanguageFeatures-Basic-fr-fr-Package~31bf3856ad364e35~amd64~~.cab".

Definition matches (arch_path arch_token : string) (lines : list string)
  : list string :=
  find_matches AsciiLib.unquote AsciiLib.lower "fr-fr" arch_path arch_token
               lines.

Definition decoded (line : string) : string :=
  AsciiLib.lower (AsciiLib.unquote line).

(** A host with an empty disk, a network that serves every url in two
    chunks, and children that exit with [codes n]. *)
Definition host_with (codes : nat -> Z) : host :=
  {| fs := ∅;
     net := fun _ => Some [Some "abc"; Some "de"];
     exit_code := fun n _ => codes n;
     child_disk := fun _ _ disk => disk;
     spawned := 0;
     reboot_answer := "n" |}.

Definition all_ok : host := host_with (fun _ => 0).
(** The second child fails. *)
Definition second_fails : host :=
  host_with (fun n => if Nat.eqb n 1 then 5 else 0).

Definition run_main (preserve extend DRY_RUN : bool) (lines : list string)
  : M unit :=
  main AsciiLib.unquote AsciiLib.lower AsciiLib.Path_name
       "D:\downloads\appx" "D:\downloads\cab"
       "fr-fr" "x64" "amd64" preserve extend DRY_RUN lines.

Definition run_transfer (found : list string) : M (list path * list path) :=
  transfer AsciiLib.unquote AsciiLib.lower AsciiLib.Path_name
           "D:\downloads\appx" "D:\downloads\cab" found [] [].

Definition three_cabs : list string := [lang_pack_x64; fod_basic; fod_ocr].

Definition cab (url : string) : path :=
  MkPath "D:\downloads\cab" (AsciiLib.Path_name (AsciiLib.unquote url)).
Definition appx (url : string) : path :=
  MkPath "D:\downloads\appx" (AsciiLib.Path_name (AsciiLib.unquote url)).

(** [all_ok] after a first complete download of [found], with the
    network gone. *)
Definition offline_after (found : list string) : host :=
  {| fs := fs (post (run_transfer found all_ok));
     net := fun _ => None;
     exit_code := fun _ _ => 0;
     child_disk := fun _ _ disk => disk;
     spawned := 0;
     reboot_answer := "n" |}.

End Sample.

(** ** Reading the input files *)

(** The text of [p] on the disk of [h]. *)
Definition file_text (h : host) (p : path) : string :=
  default EmptyString (fs h !! path_str p).

(** ** More sample hosts *)

Module Cases.

(** The first cabinet of [Sample.three_cabs] is on disk already. *)
Definition with_old_file : host :=
  {| fs := {[ path_str (Sample.cab Sample.lang_pack_x64) := "old" ]};
     net := fun _ => Some [Some "abc"; Some "de"];
     exit_code := fun _ _ => 0;
     child_disk := fun _ _ disk => disk;
     spawned := 0;
     reboot_answer := "n" |}.

(** No connection can be opened. *)
Definition no_network : host :=
  {| fs := ∅;
     net := fun _ => None;
     exit_code := fun _ _ => 0;
     child_disk := fun _ _ disk => disk;
     spawned := 0;
     reboot_answer := "n" |}.

(** Every transfer breaks after the first chunk. *)
Definition broken_network : host :=
  {| fs := ∅;
     net := fun _ => Some [Some "abc"; None];
     exit_code := fun _ _ => 0;
     child_disk := fun _ _ disk => disk;
     spawned := 0;
     reboot_answer := "n" |}.

(** Everything works and the operator asks for the reboot. *)
Definition reboot_yes : host :=
  {| fs := ∅;
     net := fun _ => Some [Some "abc"; Some "de"];
     exit_code := fun _ _ => 0;
     child_disk := fun _ _ disk => disk;
     spawned := 0;
     reboot_answer := "y" |}.

(** With [full_manifest]: two cabinets and the provisioning succeed,
    then the locale command fails. *)
Definition locale_fails : host :=
  Sample.host_with (fun n => if Nat.eqb n 3 then 3 else 0).

Definition full_manifest : list string :=
  [Sample.lang_pack_x64; Sample.license; Sample.lep_appx; Sample.fod_basic].

(** The first cabinet of [Sample.three_cabs] is on disk already, and
    every PowerShell child writes [intl.xml] in the temporary
    directory, as the welcome-screen script does. *)
Definition writes_intl : host :=
  {| fs := {[ path_str (Sample.cab Sample.lang_pack_x64) := "old" ]};
     net := fun _ => Some [Some "abc"; Some "de"];
     exit_code := fun _ _ => 0;
     child_disk := fun _ cmd disk =>
                     if String.eqb (hd EmptyString cmd) "powershell"
                     then <["C:\Temp\intl.xml" := "xml"]> disk
                     else disk;
     spawned := 0;
     reboot_answer := "n" |}.

End Cases.

Module Inputs.

Definition manifest : list string :=
  [ "https://h/LocalExperiencePack/fr-fr/License.xml";
    "https://h/x/LocalExperiencePack/de-de/a.appx";
    "https://h/LocalExperiencePack/fr-fr/b.appx";
    "https://h/fod/a.cab" ].

Definition languages (lines : list string) : option (list string) :=
  extract_languages AsciiLib.unquote AsciiLib.lower lines.

Definition is_space (c : ascii) : bool :=
  let n := nat_of_ascii c in
  (n =? 32)%nat || ((9 <=? n) && (n <=? 13))%nat
  || ((28 <=? n) && (n <=? 31))%nat.

Fixpoint lstrip (s : string) : string :=
  match s with
  | String c s' => if is_space c then lstrip s' else s
  | EmptyString => EmptyString
  end.

(** [str.strip] on ASCII text. *)
Definition strip (line : string) : string :=
  String.rev (lstrip (String.rev (lstrip line))).

(** [str.splitlines] on text whose only line boundary is the line
    feed: the pieces between line feeds, without an empty last one. *)
Definition splitlines (text : string) : list string :=
  let pieces := str_split Str.nl text in
  if String.eqb (List.last pieces "x") EmptyString
  then removelast pieces else pieces.

Definition exp_packs : path := MkPath "D:\tool" "win10LangExpPacks.dat".
Definition fod : path := MkPath "D:\tool" "win10FoD.dat".

(** Two input files that share a line. *)
Definition with_inputs : host :=
  {| fs := {[ path_str exp_packs := " a" +:+ Str.nl +:+ "b " +:+ Str.nl;
              path_str fod := "b" +:+ Str.nl +:+ "  " +:+ Str.nl +:+ "c" ]};
     net := fun _ => None;
     exit_code := fun _ _ => 0;
     child_disk := fun _ _ disk => disk;
     spawned := 0;
     reboot_answer := "n" |}.

End Inputs.
(** * Properties of the matcher *)

Section MatcherFacts.

Variable unquote : string -> string.
Variable lower : string -> string.
Variables lang arch_path arch_token : string.

Local Abbreviation step :=
  (match_line unquote lower lang arch_path arch_token).
Local Abbreviation plan :=
  (find_matches unquote lower lang arch_path arch_token).

Local Abbreviation keep :=
  (accepted unquote lower lang arch_path arch_token).

Lemma fod_loop_app ks l line found :
  fod_loop ks l line found
  = (found ++ (if existsb (fun k => str_in k l) ks then [line] else []))%list.
Proof.
  induction ks as [|k ks IH]; simpl.
  - now rewrite app_nil_r.
  - destruct (str_in k l); simpl; [reflexivity | exact IH].
Qed.

Lemma match_line_app found line :
  step found line
  = (found ++ (if keep line then [line] else []))%list.
Proof.
  unfold match_line, accepted.
  destruct (is_winpe _); cbn [negb andb]; [now rewrite app_nil_r|].
  destruct (str_in (lep_segment lang) _).
  - destruct (endswith _ ".appx" || endswith _ "license.xml");
      [reflexivity | now rewrite app_nil_r].
  - destruct (str_in (language_pack_cab lang arch_path) _); cbn [orb];
      [reflexivity|].
    destruct (fod_conditions lang arch_token _); cbn [andb].
    + apply fod_loop_app.
    + now rewrite app_nil_r.
Qed.

Lemma fold_match_line lines found :
  fold_left step lines found
  = (found ++ List.filter keep lines)%list.
Proof.
  revert found; induction lines as [|x xs IH]; intros found; simpl.
  - now rewrite app_nil_r.
  - rewrite IH, match_line_app, <- app_assoc.
    now destruct (keep x).
Qed.

(** The loop is a filter of the manifest, order kept. *)
Lemma find_matches_filter lines :
  plan lines = List.filter keep lines.
Proof. apply fold_match_line. Qed.

Lemma In_find_matches line lines :
  In line (plan lines) <-> In line lines /\ keep line = true.
Proof. rewrite find_matches_filter. apply filter_In. Qed.

Lemma count_occ_filter (f : string -> bool) (l : list string) (x : string) :
  count_occ string_dec (List.filter f l) x
  = if f x then count_occ string_dec l x else 0%nat.
Proof.
  induction l as [|y ys IH]; simpl.
  - now destruct (f x).
  - destruct (string_dec y x) as [->|Hne].
    + destruct (f x) eqn:Hfx; simpl; [|exact IH].
      destruct (string_dec x x); [|contradiction]. now rewrite IH.
    + destruct (f y); simpl; [|exact IH].
      destruct (string_dec y x); [contradiction|exact IH].
Qed.

Lemma count_find_matches line lines :
  count_occ string_dec (plan lines) line
  = if keep line then count_occ string_dec lines line else 0%nat.
Proof. rewrite find_matches_filter. apply count_occ_filter. Qed.

Lemma count_occ_NoDup_In (l : list string) (x : string) :
  List.NoDup l -> In x l -> count_occ string_dec l x = 1%nat.
Proof.
  intros Hnd Hin.
  pose proof (proj1 (NoDup_count_occ string_dec l) Hnd x) as Hle.
  pose proof (proj1 (count_occ_In string_dec l x) Hin) as Hge.
  lia.
Qed.

End MatcherFacts.

(** ** The manifest has no duplicates *)

Lemma fromkeys_from_spec lines :
  forall seen,
    List.NoDup (fromkeys_from seen lines)
    /\ forall x, In x (fromkeys_from seen lines)
                 <-> In x lines /\ ~ In x seen.
Proof.
  induction lines as [|a rest IH]; intros seen; cbn [fromkeys_from].
  - split; [constructor|]. intros x. cbn. tauto.
  - destruct (existsb (String.eqb a) seen) eqn:Hseen.
    + apply existsb_exists in Hseen as (y & Hy & Heq).
      apply String.eqb_eq in Heq. subst y.
      destruct (IH seen) as [Hnd Hin]. split; [exact Hnd|].
      intros x. rewrite Hin. cbn [In]. split; [tauto|].
      intros [[<-|Hx] Hns]; [contradiction|tauto].
    + assert (Hna : ~ In a seen).
      { intros Ha.
        assert (Ht : existsb (String.eqb a) seen = true).
        { apply existsb_exists. exists a. split; [exact Ha|].
          apply String.eqb_refl. }
        congruence. }
      destruct (IH (a :: seen)) as [Hnd Hin]. split.
      * constructor; [|exact Hnd]. rewrite Hin. cbn [In]. tauto.
      * intros x. cbn [In]. rewrite Hin. cbn [In].
        destruct (string_dec a x) as [<-|Hne]; tauto.
Qed.

Lemma NoDup_dict_fromkeys lines : List.NoDup (dict_fromkeys lines).
Proof. apply fromkeys_from_spec. Qed.

Lemma In_dict_fromkeys lines x : In x (dict_fromkeys lines) <-> In x lines.
Proof.
  unfold dict_fromkeys. rewrite (proj2 (fromkeys_from_spec lines [])).
  cbn. tauto.
Qed.

(** * Properties of the steps *)

Section Steps.

Context {A B : Type}.
Implicit Types (m : M A) (k : A -> M B) (h : host).

Lemma outc_bind m k h :
  outc (bind m k h)
  = match outc (m h) with
    | Ret a => outc (k a (post (m h)))
    | Exit c => Exit c
    | Raise e => Raise e
    end.
Proof. unfold bind. now destruct (outc (m h)). Qed.

Lemma post_bind m k h :
  post (bind m k h)
  = match outc (m h) with
    | Ret a => post (k a (post (m h)))
    | _ => post (m h)
    end.
Proof. unfold bind. now destruct (outc (m h)). Qed.

Lemma evs_bind m k h :
  evs (bind m k h)
  = (evs (m h) ++ match outc (m h) with
                  | Ret a => evs (k a (post (m h)))
                  | _ => []
                  end)%list.
Proof.
  unfold bind. destruct (outc (m h)); cbn [evs]; now rewrite ?app_nil_r.
Qed.

Lemma bind_Ret_inv m k h b :
  outc (bind m k h) = Ret b ->
  exists a,
    outc (m h) = Ret a
    /\ outc (k a (post (m h))) = Ret b
    /\ post (bind m k h) = post (k a (post (m h))).
Proof.
  rewrite outc_bind, post_bind.
  destruct (outc (m h)) as [a| |]; try discriminate. eauto.
Qed.

Lemma evs_all_bind (P : event -> Prop) m k :
  evs_all P m -> (forall a, evs_all P (k a)) -> evs_all P (bind m k).
Proof.
  intros Hm Hk h. rewrite evs_bind. apply Forall_app. split; [apply Hm|].
  destruct (outc (m h)); [apply Hk | constructor | constructor].
Qed.

End Steps.

Lemma evs_all_ret {A} (P : event -> Prop) (a : A) : evs_all P (ret a).
Proof. intros h. constructor. Qed.

Lemma evs_all_sys_exit {A} (P : event -> Prop) (c : Z) :
  evs_all P (@sys_exit A c).
Proof. intros h. constructor. Qed.

Lemma evs_all_raise {A} (P : event -> Prop) (e : string) :
  evs_all P (@raise A e).
Proof. intros h. constructor. Qed.

Lemma evs_all_emit (P : event -> Prop) (e : event) :
  P e -> evs_all P (emit e).
Proof. intros He h. repeat constructor. exact He. Qed.

Lemma evs_all_set_fs (P : event -> Prop) f : evs_all P (set_fs f).
Proof. intros h. constructor. Qed.

Lemma evs_all_path_exists (P : event -> Prop) p : evs_all P (path_exists p).
Proof. intros h. constructor. Qed.

Lemma evs_all_pause_exit {A} (P : event -> Prop) (c : Z) :
  (forall t, P (EvPrint t)) -> P EvInput -> evs_all P (@pause_exit A c).
Proof.
  intros Hp Hi. unfold pause_exit.
  repeat (apply evs_all_bind; [|intros ?]);
    auto using evs_all_emit, evs_all_sys_exit.
Qed.

Lemma evs_all_fatal {A} (P : event -> Prop) (msg : string) :
  (forall l t, P (EvLog l t)) -> (forall t, P (EvPrint t)) -> P EvInput ->
  evs_all P (@fatal A msg).
Proof.
  intros Hl Hp Hi. unfold fatal, log.
  apply evs_all_bind; [|intros ?];
    auto using evs_all_emit, evs_all_pause_exit.
Qed.

(** ** [quiet]: steps that start no process *)

Lemma invocations_app (es1 es2 : list event) :
  invocations (es1 ++ es2) = (invocations es1 ++ invocations es2)%list.
Proof. apply List.filter_app. Qed.

Lemma quiet_invocations (es : list event) :
  Forall quiet es -> invocations es = [].
Proof.
  induction 1 as [|e es He _ IH]; [reflexivity|].
  unfold invocations in *. cbn [List.filter]. now rewrite He.
Qed.

Lemma quiet_read_loop dest reads : evs_all quiet (read_loop dest reads).
Proof.
  induction reads as [|[chunk|] rest IH]; cbn [read_loop].
  - apply evs_all_ret.
  - destruct (String.eqb chunk EmptyString); [apply evs_all_ret|].
    unfold write_chunk.
    repeat (apply evs_all_bind; [|intros ?]);
      auto using evs_all_emit, evs_all_set_fs.
    now apply evs_all_emit.
  - apply evs_all_raise.
Qed.

Lemma quiet_urlopen url : evs_all quiet (urlopen url).
Proof.
  unfold urlopen. apply evs_all_bind; [now apply evs_all_emit|].
  intros _ h. destruct (net h url); constructor.
Qed.

Lemma quiet_open_wb dest : evs_all quiet (open_wb dest).
Proof.
  unfold open_wb. apply evs_all_bind; [now apply evs_all_emit|intros _].
  apply evs_all_set_fs.
Qed.

Lemma quiet_log level message : evs_all quiet (log level message).
Proof. now apply evs_all_emit. Qed.

Lemma quiet_download_file url dest : evs_all quiet (download_file url dest).
Proof.
  unfold download_file.
  apply evs_all_bind; [now apply evs_all_emit|intros _].
  apply evs_all_bind; [apply evs_all_path_exists|intros present].
  destruct present; [apply quiet_log|].
  apply evs_all_bind; [apply quiet_log|intros _].
  apply evs_all_bind; [apply quiet_urlopen|intros reads].
  apply evs_all_bind; [apply quiet_open_wb|intros _].
  apply evs_all_bind; [apply quiet_read_loop|intros _].
  apply quiet_log.
Qed.

(** ** [run] *)

Lemma run_outc cmd h :
  outc (run cmd h)
  = if exit_code h (spawned h) cmd =? 0 then Ret tt else Exit 1.
Proof.
  unfold run. rewrite outc_bind. cbn [log emit outc post].
  rewrite outc_bind. cbn [popen_wait outc post].
  now destruct (exit_code h (spawned h) cmd =? 0).
Qed.

Lemma run_invocations cmd h :
  invocations (evs (run cmd h)) = [EvPopen cmd (exit_code h (spawned h) cmd)].
Proof.
  unfold run. rewrite evs_bind. cbn [log emit outc post evs].
  rewrite evs_bind. cbn [popen_wait outc post evs].
  destruct (exit_code h (spawned h) cmd =? 0); reflexivity.
Qed.

Lemma run_post cmd h : post (run cmd h) = after_child cmd h.
Proof.
  unfold run. rewrite post_bind. cbn [log emit outc post].
  rewrite post_bind. cbn [popen_wait outc post].
  destruct (exit_code h (spawned h) cmd =? 0); reflexivity.
Qed.

Lemma powershell_only_run cmd :
  hd EmptyString cmd = "powershell" -> evs_all powershell_only (run cmd).
Proof.
  intros Hhd. unfold run, log.
  apply evs_all_bind; [apply evs_all_emit; intros c r; discriminate|intros _].
  apply evs_all_bind.
  - intros h. repeat constructor. intros c r [= <- _]. exact Hhd.
  - intros r. destruct (r =? 0); [apply evs_all_ret|].
    apply evs_all_fatal; intros; intros c r'; discriminate.
Qed.

(** ** Files on disk *)

Lemma keeps_files_bind {A B} (m : M A) (k : A -> M B) :
  keeps_files m -> (forall a, keeps_files (k a)) -> keeps_files (bind m k).
Proof.
  intros Hm Hk h p Hp. rewrite post_bind.
  destruct (outc (m h)); [apply Hk| |]; now apply Hm.
Qed.

Lemma keeps_files_emit e : keeps_files (emit e).
Proof. intros h p Hp. exact Hp. Qed.

Lemma keeps_files_ret {A} (a : A) : keeps_files (ret a).
Proof. intros h p Hp. exact Hp. Qed.

Lemma keeps_files_urlopen url : keeps_files (urlopen url).
Proof.
  unfold urlopen. apply keeps_files_bind; [apply keeps_files_emit|].
  intros _ h p Hp. now destruct (net h url).
Qed.

Lemma keeps_files_open_wb dest : keeps_files (open_wb dest).
Proof.
  unfold open_wb. apply keeps_files_bind; [apply keeps_files_emit|].
  intros _ h p Hp. cbn [set_fs post fs].
  destruct (decide (dest = p)) as [->|Hne].
  - rewrite lookup_insert_eq. eauto.
  - now rewrite lookup_insert_ne.
Qed.

Lemma keeps_files_write_chunk dest chunk : keeps_files (write_chunk dest chunk).
Proof.
  unfold write_chunk. apply keeps_files_bind; [apply keeps_files_emit|].
  intros _ h p Hp. cbn [set_fs post fs].
  destruct (decide (dest = p)) as [->|Hne].
  - rewrite lookup_alter_eq. destruct Hp as [c ->]. cbn. eauto.
  - now rewrite lookup_alter_ne.
Qed.

Lemma keeps_files_read_loop dest reads : keeps_files (read_loop dest reads).
Proof.
  induction reads as [|[chunk|] rest IH]; cbn [read_loop].
  - apply keeps_files_ret.
  - destruct (String.eqb chunk EmptyString); [apply keeps_files_ret|].
    apply keeps_files_bind; [apply keeps_files_write_chunk|intros _; exact IH].
  - intros h p Hp. exact Hp.
Qed.

Lemma keeps_files_download_file url dest : keeps_files (download_file url dest).
Proof.
  unfold download_file.
  apply keeps_files_bind; [apply keeps_files_emit|intros _].
  apply keeps_files_bind; [intros h p Hp; exact Hp|intros present].
  destruct present; [apply keeps_files_emit|].
  apply keeps_files_bind; [apply keeps_files_emit|intros _].
  apply keeps_files_bind; [apply keeps_files_urlopen|intros reads].
  apply keeps_files_bind; [apply keeps_files_open_wb|intros _].
  apply keeps_files_bind; [apply keeps_files_read_loop|intros _].
  apply keeps_files_emit.
Qed.

(** A destination already on disk: nothing but the directory check and
    a log line. *)
Lemma download_file_present url dest h :
  is_Some (fs h !! path_str dest) ->
  download_file url dest h
  = Res (Ret tt) h
        [ EvMkdir (parent dest);
          EvLog "DEBUG" ("Already exists: " +:+ name dest) ].
Proof.
  intros Hp. unfold download_file, bind, path_exists.
  cbn [emit outc post evs]. rewrite bool_decide_eq_true_2 by exact Hp.
  reflexivity.
Qed.

(** A download that returns has left its destination on disk. *)
Lemma download_file_leaves_dest url dest h :
  outc (download_file url dest h) = Ret tt ->
  is_Some (fs (post (download_file url dest h)) !! path_str dest).
Proof.
  destruct (decide (is_Some (fs h !! path_str dest))) as [Hp|Hp].
  - intros _. now apply keeps_files_download_file.
  - unfold download_file. intros H.
    apply bind_Ret_inv in H as (_ & _ & H & ->). cbn [emit post] in *.
    apply bind_Ret_inv in H as (present & Hpres & H & ->).
    cbn [path_exists outc post] in *.
    injection Hpres as <-. rewrite bool_decide_eq_false_2 in * by exact Hp.
    apply bind_Ret_inv in H as (_ & _ & H & ->). cbn [log emit post] in *.
    apply bind_Ret_inv in H as (reads & _ & H & ->).
    assert (Hfs : fs (post (urlopen url h)) = fs h).
    { unfold urlopen. rewrite post_bind. cbn [emit outc post].
      now destruct (net h url). }
    revert H. generalize dependent (post (urlopen url h)).
    intros h0 Hfs H.
    apply bind_Ret_inv in H as (_ & _ & H & ->).
    apply bind_Ret_inv in H as (_ & _ & _ & ->).
    cbn [log emit post].
    apply keeps_files_read_loop.
    unfold open_wb. rewrite post_bind. cbn [emit set_fs outc post fs].
    rewrite lookup_insert_eq. eauto.
Qed.

Lemma bind_ret_l {A B} (a : A) (k : A -> M B) h : bind (ret a) k h = k a h.
Proof. unfold bind, ret. cbn [outc post evs app]. now destruct (k a h). Qed.

Lemma bind_emit {B} (e : event) (k : unit -> M B) h :
  bind (emit e) k h = Res (outc (k tt h)) (post (k tt h)) (e :: evs (k tt h)).
Proof. reflexivity. Qed.

(** * Properties of the stages of [main] *)

Section MainFacts.

Variable unquote : string -> string.
Variable lower : string -> string.
Variable Path_name : string -> string.
Variables APPX_DIR CAB_DIR : string.
Variables lang arch_path arch_token : string.
Variables preserve extend : bool.

Local Abbreviation download_all :=
  (transfer unquote lower Path_name APPX_DIR CAB_DIR).
Local Abbreviation dest_for :=
  (dest_of unquote lower Path_name APPX_DIR CAB_DIR).
Local Abbreviation appx_of :=
  (appx_dests unquote lower Path_name APPX_DIR CAB_DIR).
Local Abbreviation cabs_of :=
  (cab_dests unquote lower Path_name APPX_DIR CAB_DIR).
Local Abbreviation skip_log :=
  (skip_events unquote lower Path_name APPX_DIR CAB_DIR).
Local Abbreviation to_appx :=
  (is_package_url unquote lower Path_name).

(** ** The download loop *)

Lemma transfer_cons url rest a c :
  download_all (url :: rest) a c
  = bind (download_file url (dest_for url))
         (fun _ =>
            if to_appx url
            then download_all rest (a ++ [dest_for url]) c
            else download_all rest a (c ++ [dest_for url])).
Proof.
  unfold dest_of, is_package_url.
  cbn [transfer].
  now destruct (is_package_name lower (Path_name (unquote url))).
Qed.

Lemma dests_cons url rest :
  appx_of (url :: rest)
  = (if to_appx url then [dest_for url] else []) ++ appx_of rest
  /\ cabs_of (url :: rest)
     = (if to_appx url then [] else [dest_for url]) ++ cabs_of rest.
Proof.
  unfold appx_dests, cab_dests.
  cbn [List.filter].
  now destruct (to_appx url).
Qed.

Lemma quiet_transfer found : forall a c, evs_all quiet (download_all found a c).
Proof.
  induction found as [|url rest IH]; intros a c.
  - apply evs_all_ret.
  - rewrite transfer_cons.
    apply evs_all_bind; [apply quiet_download_file|intros _].
    destruct (to_appx url); apply IH.
Qed.

Lemma keeps_files_transfer found :
  forall a c, keeps_files (download_all found a c).
Proof.
  induction found as [|url rest IH]; intros a c.
  - apply keeps_files_ret.
  - rewrite transfer_cons.
    apply keeps_files_bind; [apply keeps_files_download_file|intros _].
    destruct (to_appx url); apply IH.
Qed.

(** A download loop that returns gives the two lists of the plan and
    has left every destination on disk. *)
Lemma transfer_returns found :
  forall a c h files,
    outc (download_all found a c h) = Ret files ->
    files = (a ++ appx_of found, c ++ cabs_of found)
    /\ forall url, In url found ->
         is_Some (fs (post (download_all found a c h)) !! path_str (dest_for url)).
Proof.
  induction found as [|url rest IH]; intros a c h files H.
  - cbn in H. injection H as <-. split; [|intros ? []].
    unfold appx_dests, cab_dests.
    cbn. now rewrite !app_nil_r.
  - rewrite transfer_cons in *.
    apply bind_Ret_inv in H as ([] & Hdl & H & ->).
    destruct (dests_cons url rest) as [-> ->].
    assert (Hkept : forall a' c',
               is_Some (fs (post (download_all rest a' c'
                                    (post (download_file url (dest_for url) h))))
                        !! path_str (dest_for url))).
    { intros a' c'. apply keeps_files_transfer.
      now apply download_file_leaves_dest. }
    destruct (to_appx url);
      apply IH in H as [-> Hrest]; cbn [app];
      rewrite <- ?app_assoc; cbn [app]; (split; [reflexivity|]);
      intros url' [<-|Hin]; auto.
Qed.

(** With every destination on disk the loop only checks and logs. *)
Lemma transfer_all_present found :
  forall a c h,
    (forall url, In url found -> is_Some (fs h !! path_str (dest_for url))) ->
    download_all found a c h
    = Res (Ret (a ++ appx_of found, c ++ cabs_of found)) h
          (skip_log found).
Proof.
  induction found as [|url rest IH]; intros a c h Hall.
  - unfold appx_of, cabs_of.
    cbn. now rewrite !app_nil_r.
  - rewrite transfer_cons. unfold bind.
    rewrite download_file_present by (apply Hall; now left).
    cbn [outc post evs].
    destruct (dests_cons url rest) as [-> ->].
    destruct (to_appx url);
      rewrite IH by (intros; apply Hall; now right);
      cbn [outc post evs app]; rewrite <- ?app_assoc; reflexivity.
Qed.

Lemma skip_events_calm found :
  List.filter is_transfer (skip_log found) = []
  /\ List.filter is_file_write (skip_log found) = [].
Proof.
  induction found as [|url rest [IH1 IH2]]; [split; reflexivity|].
  unfold skip_events in *.
  cbn [flat_map app List.filter is_transfer is_file_write].
  split; assumption.
Qed.

(** ** The cabinet loop *)

Lemma invocations_log level message es :
  invocations (EvLog level message :: es) = invocations es.
Proof. reflexivity. Qed.

(** Either every cabinet was installed with exit code 0, or the loop
    stopped with [sys.exit(1)] at the first one that was not. *)
Lemma install_cabs_cases cabs :
  forall i total h,
    (outc (install_cabs i total cabs h) = Ret tt
     /\ invocations (evs (install_cabs i total cabs h))
        = installed cabs)
    \/ (outc (install_cabs i total cabs h) = Exit 1
        /\ exists k c r,
            cabs !! k = Some c /\ r <> 0
            /\ invocations (evs (install_cabs i total cabs h))
               = installed (take k cabs)
                 ++ [EvPopen (dism_cmd c) r]).
Proof.
  induction cabs as [|cab rest IH]; intros i total h.
  - left. split; reflexivity.
  - cbn [install_cabs]. unfold log. rewrite bind_emit.
    cbn [outc evs]. rewrite invocations_log.
    rewrite outc_bind, evs_bind, invocations_app.
    rewrite run_outc, run_invocations.
    destruct (exit_code h (spawned h) (dism_cmd cab) =? 0) eqn:Hr.
    + apply Z.eqb_eq in Hr. rewrite Hr.
      rewrite bind_emit. cbn [outc evs]. rewrite invocations_log.
      destruct (IH (S i) total (post (run (dism_cmd cab) h)))
        as [[-> ->]|(-> & k & c & r & Hk & Hne & ->)].
      * left. split; reflexivity.
      * right. split; [reflexivity|].
        exists (S k), c, r. repeat split; assumption || reflexivity.
    + apply Z.eqb_neq in Hr. right. split; [reflexivity|].
      exists 0%nat, cab, (exit_code h (spawned h) (dism_cmd cab)).
      repeat split; assumption || reflexivity.
Qed.

(** ** The stages after the cabinets *)

Local Abbreviation later_on := (later lower lang preserve extend).

Lemma powershell_only_log level message :
  evs_all powershell_only (log level message).
Proof. apply evs_all_emit. intros c r. discriminate. Qed.

Lemma powershell_only_later appx_files :
  evs_all powershell_only (later_on appx_files).
Proof.
  unfold later.
  apply evs_all_bind; [|intros _; apply evs_all_bind; [|intros _]].
  - unfold install_experience_pack.
    destruct (find_lep lower appx_files) as [lep|];
      [|apply powershell_only_log].
    apply evs_all_bind; [apply powershell_only_log|intros _].
    now apply powershell_only_run.
  - unfold apply_locale.
    apply evs_all_bind; [apply powershell_only_log|intros _].
    apply evs_all_bind; [now apply powershell_only_run|intros _].
    apply evs_all_bind; [apply powershell_only_log|intros _].
    apply evs_all_bind; [apply powershell_only_log|intros _].
    now apply powershell_only_run.
  - unfold finish, panel, prompt_reboot.
    repeat (apply evs_all_bind;
            [apply evs_all_emit; intros c r; discriminate|intros _]).
    intros h.
    destruct (String.eqb (reboot_answer h) EmptyString
              || String.eqb (reboot_answer h) "y"
              || String.eqb (reboot_answer h) "yes").
    + apply evs_all_bind; [apply powershell_only_log|intros _].
      apply evs_all_emit. intros c r. discriminate.
    + apply evs_all_bind; [apply powershell_only_log|intros _].
      apply evs_all_pause_exit; intros; intros c r; discriminate.
Qed.



(** ** [main] *)

Local Abbreviation plan :=
  (find_matches unquote lower lang arch_path arch_token).
Local Abbreviation run_main :=
  (main unquote lower Path_name APPX_DIR CAB_DIR lang arch_path arch_token
        preserve extend).
Local Abbreviation install_with := (install lower lang preserve extend).

Lemma main_no_plan DRY_RUN lines h :
  plan lines = [] ->
  run_main DRY_RUN lines h
  = Res (Exit 1) h (fatal_events "No matching files found").
Proof. intros Hnone. unfold main. rewrite Hnone. reflexivity. Qed.

Lemma main_with_plan DRY_RUN lines h :
  plan lines <> [] ->
  run_main DRY_RUN lines h
  = bind (panel (file_list unquote Path_name (plan lines)))
         (fun _ =>
            bind (download_all (plan lines) [] [])
                 (fun files => install_with DRY_RUN (fst files) (snd files))) h.
Proof.
  intros Hsome. unfold main.
  destruct (plan lines); [contradiction|]. now rewrite bind_ret_l.
Qed.

Lemma install_dry appx_files cab_files h :
  install_with true appx_files cab_files h
  = Res (Exit 0) h
        [ EvLog "WARN" "Dry-run enabled: installation skipped";
          EvPrint (nl +:+ "[bold cyan]Press Enter to exit...[/bold cyan]");
          EvInput ].
Proof. reflexivity. Qed.

Lemma install_wet appx_files cab_files h :
  install_with false appx_files cab_files h
  = bind (panel "Installing CAB packages")
         (fun _ =>
            bind (install_cabs 1 (length cab_files) cab_files)
                 (fun _ => later_on appx_files)) h.
Proof. unfold install. now rewrite bind_ret_l. Qed.

(** A dry run starts no process, whatever happens. *)
Lemma dry_run_quiet lines h : invocations (evs (run_main true lines h)) = [].
Proof.
  destruct (plan lines) eqn:Hplan.
  - now rewrite main_no_plan.
  - rewrite main_with_plan by (rewrite Hplan; discriminate).
    rewrite Hplan. unfold panel. rewrite bind_emit. cbn [evs].
    change (invocations (EvPanel ?t :: ?es)) with (invocations es).
    rewrite evs_bind, invocations_app.
    rewrite (quiet_invocations _ (quiet_transfer _ _ _ h)).
    destruct (outc _); [now rewrite install_dry| |]; reflexivity.
Qed.

(** A run that installs, when there is no plan or the downloads do
    not return, starts no process. *)
Lemma no_transfer_quiet lines h :
  (forall files, outc (download_all (plan lines) [] [] h) <> Ret files) ->
  invocations (evs (run_main false lines h)) = [].
Proof.
  intros Hfail. destruct (plan lines) eqn:Hplan.
  - now rewrite main_no_plan.
  - rewrite main_with_plan by (rewrite Hplan; discriminate).
    rewrite Hplan in *. unfold panel. rewrite bind_emit. cbn [evs].
    change (invocations (EvPanel ?t :: ?es)) with (invocations es).
    rewrite evs_bind, invocations_app.
    rewrite (quiet_invocations _ (quiet_transfer _ _ _ h)).
    destruct (outc _) as [files| |] eqn:Hout; [|reflexivity|reflexivity].
    now destruct (Hfail files).
Qed.

(** A run that installs, after downloads that returned: either the
    cabinet loop stopped it, or the later stages ran after all the
    cabinets. *)
Lemma main_after_transfer lines h files :
  plan lines <> [] ->
  outc (download_all (plan lines) [] [] h) = Ret files ->
  files = (appx_of (plan lines), cabs_of (plan lines))
  /\ ((outc (run_main false lines h) = Exit 1
       /\ exists k c r,
           cabs_of (plan lines) !! k = Some c /\ r <> 0
           /\ invocations (evs (run_main false lines h))
              = installed (take k (cabs_of (plan lines)))
                ++ [EvPopen (dism_cmd c) r])
      \/ (exists h2,
             invocations (evs (run_main false lines h))
             = installed (cabs_of (plan lines))
               ++ invocations (evs (later_on (appx_of (plan lines)) h2))
             /\ (forall e, In e (evs (later_on (appx_of (plan lines)) h2)) ->
                           In e (evs (run_main false lines h))))).
Proof.
  intros Hsome Hret.
  destruct (transfer_returns _ _ _ _ _ Hret) as [Hfiles _].
  cbn [app] in Hfiles. split; [exact Hfiles|].
  rewrite main_with_plan by exact Hsome.
  unfold panel. rewrite bind_emit. cbn [outc evs].
  rewrite outc_bind, evs_bind, Hret, Hfiles. cbn [fst snd].
  change (invocations (EvPanel ?t :: ?es)) with (invocations es).
  rewrite invocations_app.
  rewrite (quiet_invocations _ (quiet_transfer _ _ _ h)). cbn [app].
  set (h1 := post _). rewrite install_wet.
  unfold panel. rewrite bind_emit. cbn [outc evs].
  change (invocations (EvPanel ?t :: ?es)) with (invocations es).
  rewrite outc_bind, evs_bind, invocations_app.
  destruct (install_cabs_cases (cabs_of (plan lines)) 1
              (length (cabs_of (plan lines))) h1)
    as [[Hout Hinv]|(Hout & k & c & r & Hk & Hne & Hinv)];
    rewrite Hout, Hinv.
  - right. eexists. split; [reflexivity|].
    intros e He. right. apply in_or_app. right. right.
    apply in_or_app. right. exact He.
  - left. split; [reflexivity|]. exists k, c, r.
    rewrite app_nil_r. auto.
Qed.

End MainFacts.

(** * The matcher's claims *)

(** C2: a manifest line whose decoded lowercase form is WinPE-flagged is
    never in [found], whatever the selector and whatever rule it would
    otherwise match. *)
Theorem winpe_never_in_plan
        (unquote lower : string -> string)
        (lang arch_path arch_token : string)
        (lines : list string) (line : string) :
  is_winpe (lower (unquote line)) = true ->
  ~ In line (find_matches unquote lower lang arch_path arch_token lines).
Proof.
  intros Hpe Hin.
  apply In_find_matches in Hin as [_ Hacc].
  unfold accepted in Hacc. rewrite Hpe in Hacc. discriminate.
Qed.

Lemma winpe_never_in_plan_witness :
  is_winpe (Sample.decoded Sample.winpe_lang_pack) = true
  /\ ~ In Sample.winpe_lang_pack
          (Sample.matches "x64" "amd64"
             [Sample.lang_pack_x64; Sample.winpe_lang_pack]).
Proof.
  split; [reflexivity|].
  apply (winpe_never_in_plan AsciiLib.unquote AsciiLib.lower).
  reflexivity.
Defined.




(** C9, as the code has it: in a duplicate-free manifest, a reference
    that is not WinPE-flagged, does not contain the experience-pack
    segment, satisfies rule 3's three containment conditions and
    contains two different feature keywords is appended exactly once:
    the keyword loop appends one copy, and [found] holds the reference
    once. *)
Theorem fod_reference_appended_once
        (unquote lower : string -> string)
        (lang arch_path arch_token : string)
        (lines : list string) (line k1 k2 : string) :
  List.NoDup lines ->
  In line lines ->
  is_winpe (lower (unquote line)) = false ->
  str_in (lep_segment lang) (lower (unquote line)) = false ->
  fod_conditions lang arch_token (lower (unquote line)) = true ->
  In k1 FOD_FEATURE_KEYWORDS -> In k2 FOD_FEATURE_KEYWORDS -> k1 <> k2 ->
  str_in k1 (lower (unquote line)) = true ->
  str_in k2 (lower (unquote line)) = true ->
  (forall found,
      fod_loop FOD_FEATURE_KEYWORDS (lower (unquote line)) line found
      = (found ++ [line])%list)
  /\ count_occ string_dec
               (find_matches unquote lower lang arch_path arch_token lines)
               line
     = 1%nat.
Proof.
  intros Hnd Hin Hpe Hseg Hfod Hk1 _ _ Hin1 _.
  assert (Hany : existsb (fun k => str_in k (lower (unquote line)))
                         FOD_FEATURE_KEYWORDS = true).
  { apply existsb_exists. exists k1. split; assumption. }
  split.
  - intros found. rewrite fod_loop_app, Hany. reflexivity.
  - rewrite count_find_matches. unfold accepted.
    rewrite Hpe, Hseg, Hfod, Hany. cbn [negb andb].
    rewrite orb_true_r.
    now apply count_occ_NoDup_In.
Qed.

Lemma fod_reference_appended_once_witness :
  count_occ string_dec
            (Sample.matches "x64" "amd64"
               (dict_fromkeys [Sample.fod_two_keywords; Sample.license;
                               Sample.fod_two_keywords]))
            Sample.fod_two_keywords
  = 1%nat.
Proof.
  apply (fod_reference_appended_once
           AsciiLib.unquote AsciiLib.lower "fr-fr" "x64" "amd64"
           (dict_fromkeys [Sample.fod_two_keywords; Sample.license;
                           Sample.fod_two_keywords])
           Sample.fod_two_keywords
           "languagefeatures-basic-" "languagefeatures-ocr-").
  - apply NoDup_dict_fromkeys.
  - apply In_dict_fromkeys. simpl. auto.
  - vm_compute. reflexivity.
  - vm_compute. reflexivity.
  - vm_compute. reflexivity.
  - simpl. auto.
  - simpl. auto.
  - discriminate.
  - vm_compute. reflexivity.
  - vm_compute. reflexivity.
Defined.

(** C9 as stated fails: a WinPE-flagged reference, and a reference under
    the experience-pack segment, satisfy rule 3's conditions with two
    keywords and are appended zero times. *)
Lemma fod_reference_counterexample :
  (fod_conditions "fr-fr" "amd64"
                  (Sample.decoded Sample.winpe_fod_two_keywords) = true
   /\ str_in "languagefeatures-basic-"
             (Sample.decoded Sample.winpe_fod_two_keywords) = true
   /\ str_in "languagefeatures-ocr-"
             (Sample.decoded Sample.winpe_fod_two_keywords) = true
   /\ count_occ string_dec
                (Sample.matches "x64" "amd64" [Sample.winpe_fod_two_keywords])
                Sample.winpe_fod_two_keywords = 0%nat)
  /\ (fod_conditions "fr-fr" "amd64"
                     (Sample.decoded Sample.lep_dir_fod_two_keywords) = true
      /\ str_in "languagefeatures-basic-"
                (Sample.decoded Sample.lep_dir_fod_two_keywords) = true
      /\ str_in "languagefeatures-ocr-"
                (Sample.decoded Sample.lep_dir_fod_two_keywords) = true
      /\ count_occ string_dec
                   (Sample.matches "x64" "amd64"
                      [Sample.lep_dir_fod_two_keywords])
                   Sample.lep_dir_fod_two_keywords = 0%nat).
Proof. repeat split; vm_compute; reflexivity. Qed.

(** C10: a reference that is not WinPE-flagged, contains the segment
    [/localexperiencepack/{lang}/] and ends with neither [.appx] nor
    [license.xml] leaves [found] unchanged and is absent from the plan,
    for every architecture, so also when rule 2 or rule 3 would have
    matched it. *)
Theorem lep_segment_consumes_reference
        (unquote lower : string -> string) (lang : string) (line : string) :
  is_winpe (lower (unquote line)) = false ->
  str_in (lep_segment lang) (lower (unquote line)) = true ->
  endswith (lower (unquote line)) ".appx" = false ->
  endswith (lower (unquote line)) "license.xml" = false ->
  forall arch_path arch_token : string,
    (forall found,
        match_line unquote lower lang arch_path arch_token found line = found)
    /\ (forall lines,
           ~ In line
               (find_matches unquote lower lang arch_path arch_token lines)).
Proof.
  intros Hpe Hseg Happx Hlic arch_path arch_token. split.
  - intros found. unfold match_line.
    rewrite Hpe, Hseg, Happx, Hlic. reflexivity.
  - intros lines Hin.
    apply In_find_matches in Hin as [_ Hacc].
    unfold accepted in Hacc.
    rewrite Hpe, Hseg, Happx, Hlic in Hacc. discriminate.
Qed.

Lemma lep_segment_consumes_reference_witness :
  str_in (language_pack_cab "fr-fr" "x64")
         (Sample.decoded Sample.lep_dir_lang_pack) = true
  /\ ~ In Sample.lep_dir_lang_pack
          (Sample.matches "x64" "amd64"
             [Sample.lang_pack_x64; Sample.lep_dir_lang_pack]).
Proof.
  split; [reflexivity|].
  apply (lep_segment_consumes_reference
           AsciiLib.unquote AsciiLib.lower "fr-fr" Sample.lep_dir_lang_pack);
    reflexivity.
Defined.

(** * The pipeline's claims *)

Section Pipeline.

Variable unquote : string -> string.
Variable lower : string -> string.
Variable Path_name : string -> string.
Variables APPX_DIR CAB_DIR : string.
Variables lang arch_path arch_token : string.
Variables preserve extend : bool.

Local Abbreviation plan :=
  (find_matches unquote lower lang arch_path arch_token).
Local Abbreviation run_main :=
  (main unquote lower Path_name APPX_DIR CAB_DIR lang arch_path arch_token
        preserve extend).
Local Abbreviation download_all :=
  (transfer unquote lower Path_name APPX_DIR CAB_DIR).
Local Abbreviation cabs_of :=
  (cab_dests unquote lower Path_name APPX_DIR CAB_DIR).
Local Abbreviation appx_of :=
  (appx_dests unquote lower Path_name APPX_DIR CAB_DIR).

(** C1: in a run that installs, if the [i]-th process started (counting
    from 0) is a [dism /Add-Package] that exits with a non-zero code,
    then the run ends with [sys.exit(1)], [i] is the position of a
    cabinet of the plan, and the processes started by the whole run are
    exactly the [i] cabinets before it, each with exit code 0, and the
    failing one: no later cabinet, no provisioning, no locale command. *)
Theorem cabinet_failure_halts
        (lines : list string) (h : host) (i : nat) (cab : path) (r : Z) :
  invocations (evs (run_main false lines h)) !! i
  = Some (EvPopen (dism_cmd cab) r) ->
  r <> 0 ->
  outc (run_main false lines h) = Exit 1
  /\ (i < length (cabs_of (plan lines)))%nat
  /\ invocations (evs (run_main false lines h))
     = installed (take i (cabs_of (plan lines))) ++ [EvPopen (dism_cmd cab) r].
Proof.
  intros Hi Hr.
  destruct (outc (download_all (plan lines) [] [] h)) as [files| |] eqn:Hret;
    [|rewrite no_transfer_quiet in Hi by (rewrite Hret; discriminate);
      discriminate..].
  destruct (plan lines) as [|x xs] eqn:Hplan.
  { rewrite main_no_plan in Hi by exact Hplan. discriminate. }
  rewrite <- Hplan in *.
  assert (Hsome : plan lines <> []) by (rewrite Hplan; discriminate).
  destruct (main_after_transfer unquote lower Path_name APPX_DIR CAB_DIR
              lang arch_path arch_token preserve extend lines h files
              Hsome Hret)
    as [_ [(Hout & k & c & r' & Hk & Hne & Hinv)|(h2 & Hinv & _)]];
    rewrite Hinv in Hi |- *.
  - assert (Hlen : length (installed (take k (cabs_of (plan lines)))) = k).
    { unfold installed. rewrite length_map, length_take.
      apply lookup_lt_Some in Hk. lia. }
    destruct (Nat.lt_trichotomy i k) as [Hlt|[->|Hgt]].
    + rewrite lookup_app_l in Hi by lia.
      unfold installed in Hi. rewrite list_lookup_fmap in Hi.
      destruct (take k _ !! i); cbn in Hi; [|discriminate].
      congruence.
    + rewrite lookup_app_r in Hi by lia.
      rewrite Hlen, Nat.sub_diag in Hi. cbn in Hi.
      assert (He : EvPopen (dism_cmd c) r' = EvPopen (dism_cmd cab) r)
        by congruence.
      rewrite He. apply lookup_lt_Some in Hk. auto.
    + rewrite lookup_app_r in Hi by lia. rewrite Hlen in Hi.
      destruct (i - k)%nat as [|n] eqn:Hd; [lia|]. discriminate.
  - exfalso.
    destruct (decide (i < length (installed (cabs_of (plan lines))))%nat)
      as [Hlt|Hge].
    + rewrite lookup_app_l in Hi by exact Hlt.
      unfold installed in Hi. rewrite list_lookup_fmap in Hi.
      destruct (cabs_of _ !! i); cbn in Hi; [|discriminate].
      congruence.
    + rewrite lookup_app_r in Hi by lia.
      apply list_elem_of_lookup_2, list_elem_of_In in Hi.
      apply filter_In in Hi as [Hin _].
      pose proof (powershell_only_later lower lang preserve extend
                    (appx_of (plan lines)) h2) as Hps.
      rewrite Forall_forall in Hps.
      apply list_elem_of_In, Hps in Hin.
      specialize (Hin _ _ eq_refl). discriminate.
Qed.

(** C4: when the matcher keeps nothing, [main] logs the failure, waits
    for Enter and exits with code 1; the host is as it was, and no
    connection was opened, no file created or written. *)
Theorem empty_plan_is_fatal (DRY_RUN : bool) (lines : list string) (h : host) :
  plan lines = [] ->
  run_main DRY_RUN lines h
  = Res (Exit 1) h (fatal_events "No matching files found")
  /\ List.filter is_transfer (evs (run_main DRY_RUN lines h)) = []
  /\ List.filter is_file_write (evs (run_main DRY_RUN lines h)) = []
  /\ fs (post (run_main DRY_RUN lines h)) = fs h.
Proof.
  intros Hnone. rewrite main_no_plan by exact Hnone.
  repeat split; reflexivity.
Qed.

(** C5: [download_file] on a destination that is on disk returns with
    the host unchanged and without opening a connection; and when a
    download loop has returned, the same loop run again on a host with
    the disk it left returns the same lists, leaves that host unchanged,
    opens no connection and writes no file. *)
Theorem download_is_idempotent
        (url : string) (dest : path) (h : host)
        (found : list string) (a c : list path) (h1 h2 : host)
        (files : list path * list path) :
  is_Some (fs h !! path_str dest) ->
  outc (download_all found a c h1) = Ret files ->
  fs h2 = fs (post (download_all found a c h1)) ->
  download_file url dest h
  = Res (Ret tt) h
        [ EvMkdir (parent dest);
          EvLog "DEBUG" ("Already exists: " +:+ name dest) ]
  /\ outc (download_all found a c h2) = Ret files
  /\ post (download_all found a c h2) = h2
  /\ List.filter is_transfer (evs (download_all found a c h2)) = []
  /\ List.filter is_file_write (evs (download_all found a c h2)) = [].
Proof.
  intros Hpresent Hret Hfs.
  split; [now apply download_file_present|].
  destruct (transfer_returns _ _ _ _ _ _ _ _ _ _ Hret) as [-> Hall].
  rewrite transfer_all_present
    by (intros u Hu; rewrite Hfs; now apply Hall).
  cbn [outc post evs].
  destruct (skip_events_calm unquote lower Path_name APPX_DIR CAB_DIR found)
    as [Ht Hw].
  auto.
Qed.

(** C6: with the dry-run flag set, a run whose plan is not empty and
    whose downloads return ends right after them with the warning, the
    wait for Enter and [sys.exit(0)]; it leaves the host as the
    downloads left it and has started no process. *)
Theorem dry_run_stops_after_transfer
        (lines : list string) (h : host) (files : list path * list path) :
  plan lines <> [] ->
  outc (download_all (plan lines) [] [] h) = Ret files ->
  outc (run_main true lines h) = Exit 0
  /\ post (run_main true lines h) = post (download_all (plan lines) [] [] h)
  /\ evs (run_main true lines h)
     = EvPanel (file_list unquote Path_name (plan lines))
       :: evs (download_all (plan lines) [] [] h)
       ++ [ EvLog "WARN" "Dry-run enabled: installation skipped";
            EvPrint (nl +:+ "[bold cyan]Press Enter to exit...[/bold cyan]");
            EvInput ]
  /\ invocations (evs (run_main true lines h)) = [].
Proof.
  intros Hsome Hret.
  split; [|split; [|split; [|apply dry_run_quiet]]];
    rewrite main_with_plan by exact Hsome;
    unfold panel; rewrite bind_emit; cbn [outc post evs].
  - now rewrite outc_bind, Hret, install_dry.
  - now rewrite post_bind, Hret, install_dry.
  - now rewrite evs_bind, Hret, install_dry.
Qed.


End Pipeline.

(** C7: with [extend] false the locale stage is the same for both
    values of [preserve], events, outcome and host; and the first
    process it starts is [powershell -NoProfile -ExecutionPolicy Bypass
    -Command] with the script that sets [lang] as UI override, builds a
    new user language list from [lang] alone, sets that list, and sets
    [lang] as system locale. *)
Theorem replace_mode_single_entry (lang : string) (preserve : bool) :
  forall h,
    apply_locale lang true false h = apply_locale lang false false h
    /\ hd_error (invocations (evs (apply_locale lang preserve false h)))
       = Some (EvPopen
                 [ "powershell"; "-NoProfile"; "-ExecutionPolicy"; "Bypass";
                   "-Command";
                   "Set-WinUILanguageOverride -Language " +:+ lang
                   +:+ "; $list = New-WinUserLanguageList '" +:+ lang
                   +:+ "'; Set-WinUserLanguageList $list -Force; "
                   +:+ "Set-WinSystemLocale -SystemLocale " +:+ lang ]
                 (exit_code h (spawned h)
                    [ "powershell"; "-NoProfile"; "-ExecutionPolicy";
                      "Bypass"; "-Command";
                      "Set-WinUILanguageOverride -Language " +:+ lang
                      +:+ "; $list = New-WinUserLanguageList '" +:+ lang
                      +:+ "'; Set-WinUserLanguageList $list -Force; "
                      +:+ "Set-WinSystemLocale -SystemLocale " +:+ lang ])).
Proof.
  intros h. split; [reflexivity|].
  unfold apply_locale. unfold log at 1. rewrite bind_emit.
  cbn [evs]. rewrite invocations_log.
  rewrite evs_bind, invocations_app, run_invocations. reflexivity.
Qed.

(** * The claims on sample runs *)

Lemma cabinet_failure_halts_witness :
  outc (Sample.run_main true true false Sample.three_cabs Sample.second_fails)
  = Exit 1
  /\ invocations
       (evs (Sample.run_main true true false Sample.three_cabs
                             Sample.second_fails))
     = [ EvPopen (dism_cmd (Sample.cab Sample.lang_pack_x64)) 0;
         EvPopen (dism_cmd (Sample.cab Sample.fod_basic)) 5 ].
Proof.
  destruct (cabinet_failure_halts
              AsciiLib.unquote AsciiLib.lower AsciiLib.Path_name
              "D:\downloads\appx" "D:\downloads\cab"
              "fr-fr" "x64" "amd64" true true
              Sample.three_cabs Sample.second_fails
              1%nat (Sample.cab Sample.fod_basic) 5)
    as (Hout & _ & Hinv).
  - vm_compute. reflexivity.
  - lia.
  - split; [exact Hout|]. unfold Sample.run_main. rewrite Hinv.
    vm_compute. reflexivity.
Defined.

Lemma empty_plan_is_fatal_witness :
  outc (Sample.run_main true true false [Sample.winpe_lang_pack] Sample.all_ok)
  = Exit 1
  /\ evs (Sample.run_main true true false [Sample.winpe_lang_pack]
                          Sample.all_ok)
     = fatal_events "No matching files found".
Proof.
  destruct (empty_plan_is_fatal
              AsciiLib.unquote AsciiLib.lower AsciiLib.Path_name
              "D:\downloads\appx" "D:\downloads\cab"
              "fr-fr" "x64" "amd64" true true false
              [Sample.winpe_lang_pack] Sample.all_ok)
    as (Hres & _).
  - reflexivity.
  - unfold Sample.run_main. rewrite Hres. split; reflexivity.
Defined.

Lemma download_is_idempotent_witness :
  outc (Sample.run_transfer Sample.three_cabs
          (Sample.offline_after Sample.three_cabs))
  = Ret ([], [ Sample.cab Sample.lang_pack_x64; Sample.cab Sample.fod_basic;
               Sample.cab Sample.fod_ocr ])
  /\ List.filter is_transfer
       (evs (Sample.run_transfer Sample.three_cabs
               (Sample.offline_after Sample.three_cabs)))
     = [].
Proof.
  destruct (download_is_idempotent
              AsciiLib.unquote AsciiLib.lower AsciiLib.Path_name
              "D:\downloads\appx" "D:\downloads\cab"
              Sample.lang_pack_x64 (Sample.cab Sample.lang_pack_x64)
              (Sample.offline_after Sample.three_cabs)
              Sample.three_cabs [] [] Sample.all_ok
              (Sample.offline_after Sample.three_cabs)
              ([], [ Sample.cab Sample.lang_pack_x64;
                     Sample.cab Sample.fod_basic;
                     Sample.cab Sample.fod_ocr ]))
    as (_ & Hout & _ & Hnet & _).
  - eexists. vm_compute. reflexivity.
  - vm_compute. reflexivity.
  - reflexivity.
  - split; [exact Hout | exact Hnet].
Defined.

Lemma dry_run_stops_after_transfer_witness :
  outc (Sample.run_main true true true Sample.three_cabs Sample.second_fails)
  = Exit 0
  /\ invocations
       (evs (Sample.run_main true true true Sample.three_cabs
                             Sample.second_fails))
     = [].
Proof.
  destruct (dry_run_stops_after_transfer
              AsciiLib.unquote AsciiLib.lower AsciiLib.Path_name
              "D:\downloads\appx" "D:\downloads\cab"
              "fr-fr" "x64" "amd64" true true
              Sample.three_cabs Sample.second_fails
              ([], [ Sample.cab Sample.lang_pack_x64;
                     Sample.cab Sample.fod_basic;
                     Sample.cab Sample.fod_ocr ]))
    as (Hout & _ & _ & Hquiet).
  - vm_compute. discriminate.
  - vm_compute. reflexivity.
  - split; [exact Hout | exact Hquiet].
Defined.



(** * More properties of the download *)

Lemma append_cons (x : ascii) (a b : string) :
  String x a +:+ b = String x (a +:+ b).
Proof. reflexivity. Qed.

Lemma append_assoc (a b c : string) : (a +:+ b) +:+ c = a +:+ (b +:+ c).
Proof.
  induction a as [|x a IH]; [reflexivity|].
  now rewrite !append_cons, IH.
Qed.

Lemma append_nil_r (a : string) : a +:+ EmptyString = a.
Proof.
  induction a as [|x a IH]; [reflexivity|]. now rewrite append_cons, IH.
Qed.

(** The read loop appends [received reads] to the file and touches no
    other file; it fails exactly when [complete reads] is false. *)
Lemma read_loop_writes dest reads :
  forall h c0,
    fs h !! dest = Some c0 ->
    fs (post (read_loop dest reads h)) !! dest = Some (c0 +:+ received reads)
    /\ (forall p, p <> dest ->
                  fs (post (read_loop dest reads h)) !! p = fs h !! p)
    /\ outc (read_loop dest reads h)
       = if complete reads then Ret tt else Raise "OSError".
Proof.
  induction reads as [|[chunk|] rest IH]; intros h c0 Hc0;
    cbn [read_loop received complete].
  - cbn. now rewrite append_nil_r.
  - destruct (String.eqb chunk EmptyString).
    + cbn. now rewrite append_nil_r.
    + rewrite post_bind, outc_bind.
      assert (Hw : outc (write_chunk dest chunk h) = Ret tt) by reflexivity.
      assert (Hfs : fs (post (write_chunk dest chunk h))
                    = alter (fun c => c +:+ chunk) dest (fs h))
        by reflexivity.
      rewrite Hw.
      destruct (IH (post (write_chunk dest chunk h)) (c0 +:+ chunk))
        as (Hd & Hother & Hout).
      { rewrite Hfs, lookup_alter_eq, Hc0. reflexivity. }
      rewrite Hd, Hout, append_assoc.
      split; [reflexivity|split; [|reflexivity]].
      intros p Hp. rewrite Hother, Hfs by exact Hp.
      now rewrite lookup_alter_ne by congruence.
  - cbn. now rewrite append_nil_r.
Qed.

Lemma bind_eq {A B} (m : M A) (k : A -> M B) h a h' es :
  m h = Res (Ret a) h' es ->
  bind m k h = Res (outc (k a h')) (post (k a h')) (es ++ evs (k a h')).
Proof. intros Hm. unfold bind. now rewrite Hm. Qed.

Lemma path_exists_absent dest h :
  fs h !! path_str dest = None ->
  path_exists dest h = Res (Ret false) h [].
Proof.
  intros Hnone. unfold path_exists.
  rewrite bool_decide_eq_false_2; [reflexivity|].
  rewrite Hnone. now intros [? ?].
Qed.

Lemma urlopen_some url h reads :
  net h url = Some reads ->
  urlopen url h = Res (Ret reads) h [EvUrlopen url].
Proof. intros Hnet. unfold urlopen, bind, emit. cbn. now rewrite Hnet. Qed.

Lemma urlopen_none url h :
  net h url = None ->
  urlopen url h = Res (Raise "URLError") h [EvUrlopen url].
Proof. intros Hnet. unfold urlopen, bind, emit. cbn. now rewrite Hnet. Qed.

Lemma bind_open_wb {B} dest (k : unit -> M B) h :
  bind (open_wb dest) k h
  = Res (outc (k tt (post (open_wb dest h))))
        (post (k tt (post (open_wb dest h))))
        (EvOpenWb dest :: evs (k tt (post (open_wb dest h)))).
Proof. reflexivity. Qed.

(** [download_file] on a destination that is not on disk, once the
    connection is open. *)
Lemma download_file_absent url dest h reads :
  fs h !! path_str dest = None ->
  net h url = Some reads ->
  post (download_file url dest h)
  = post (read_loop (path_str dest) reads (post (open_wb (path_str dest) h)))
  /\ outc (download_file url dest h)
     = outc (read_loop (path_str dest) reads
               (post (open_wb (path_str dest) h)))
  /\ List.filter is_transfer (evs (download_file url dest h))
     = EvUrlopen url
       :: List.filter is_transfer
            (evs (read_loop (path_str dest) reads
                    (post (open_wb (path_str dest) h)))).
Proof.
  intros Hnone Hnet.
  unfold download_file. rewrite bind_emit. cbn [outc post evs].
  rewrite (bind_eq _ _ _ _ _ _ (path_exists_absent _ _ Hnone)).
  cbn [outc post evs app]. unfold log at 1 3 5. rewrite bind_emit.
  cbn [outc post evs].
  rewrite (bind_eq _ _ _ _ _ _ (urlopen_some _ _ _ Hnet)).
  cbn [outc post evs app].
  rewrite bind_open_wb. cbn [outc post evs].
  rewrite post_bind, outc_bind, evs_bind.
  cbn [List.filter is_transfer]. rewrite List.filter_app.
  destruct (outc (read_loop _ _ _)) as [[]| |]; cbn [log emit outc post evs];
    rewrite ?app_nil_r; auto.
Qed.

Lemma open_wb_fs dest h :
  fs (post (open_wb dest h)) = <[dest := EmptyString]> (fs h).
Proof. reflexivity. Qed.

Lemma read_loop_after_open dest reads h :
  fs (post (read_loop dest reads (post (open_wb dest h)))) !! dest
  = Some (received reads)
  /\ (forall p, p <> dest ->
                fs (post (read_loop dest reads (post (open_wb dest h)))) !! p
                = fs h !! p)
  /\ outc (read_loop dest reads (post (open_wb dest h)))
     = if complete reads then Ret tt else Raise "OSError".
Proof.
  destruct (read_loop_writes dest reads (post (open_wb dest h)) EmptyString)
    as (Hd & Hother & Hout).
  { rewrite open_wb_fs. apply lookup_insert_eq. }
  split; [exact Hd|split; [|exact Hout]].
  intros p Hp. rewrite Hother, open_wb_fs by exact Hp.
  now rewrite lookup_insert_ne by congruence.
Qed.

Lemma read_loop_no_transfer dest reads h :
  List.filter is_transfer (evs (read_loop dest reads h)) = [].
Proof.
  revert h. induction reads as [|[chunk|] rest IH]; intros h;
    cbn [read_loop]; [reflexivity| |reflexivity].
  destruct (String.eqb chunk EmptyString); [reflexivity|].
  rewrite evs_bind, List.filter_app.
  assert (Hw : outc (write_chunk dest chunk h) = Ret tt) by reflexivity.
  rewrite Hw, IH. reflexivity.
Qed.

(** [download_file] on a destination that is not on disk, when the
    connection cannot be opened. *)
Lemma download_file_unreachable url dest h :
  fs h !! path_str dest = None ->
  net h url = None ->
  download_file url dest h
  = Res (Raise "URLError") h
        [ EvMkdir (parent dest);
          EvLog "INFO" ("Downloading " +:+ name dest);
          EvUrlopen url ].
Proof.
  intros Hnone Hnet. unfold download_file. rewrite bind_emit.
  rewrite (bind_eq _ _ _ _ _ _ (path_exists_absent _ _ Hnone)).
  cbn [outc post evs app]. unfold log at 1 3 5. rewrite bind_emit.
  cbn [outc post evs]. unfold bind.
  rewrite (urlopen_none _ _ Hnet). reflexivity.
Qed.


(** X2: when a read fails in the middle of a transfer, the download
    raises and the partial file stays on disk; a later download to the
    same destination finds it, opens no connection and returns, with
    the partial content untouched. *)
Theorem partial_file_is_taken_as_complete
        (url url' : string) (dest : path) (h : host)
        (reads : list (option string)) :
  fs h !! path_str dest = None ->
  net h url = Some reads ->
  complete reads = false ->
  outc (download_file url dest h) = Raise "OSError"
  /\ fs (post (download_file url dest h)) !! path_str dest
     = Some (received reads)
  /\ download_file url' dest (post (download_file url dest h))
     = Res (Ret tt) (post (download_file url dest h))
           [ EvMkdir (parent dest);
             EvLog "DEBUG" ("Already exists: " +:+ name dest) ].
Proof.
  intros Hnone Hnet Hcut.
  destruct (download_file_absent url dest h reads Hnone Hnet)
    as (Hpost & Hout & _).
  destruct (read_loop_after_open (path_str dest) reads h)
    as (Hd & _ & Hloop).
  rewrite <- Hpost in Hd. rewrite Hloop, Hcut in Hout.
  split; [exact Hout|split; [exact Hd|]].
  apply download_file_present. rewrite Hd. eauto.
Qed.

(** * Steps and relations between hosts *)

Section Respects.

Variable R : host -> host -> Prop.
Hypothesis R_refl : forall h, R h h.
Hypothesis R_trans : forall h1 h2 h3, R h1 h2 -> R h2 h3 -> R h1 h3.

Lemma respects_bind {A B} (m : M A) (k : A -> M B) :
  respects R m -> (forall a, respects R (k a)) -> respects R (bind m k).
Proof.
  intros Hm Hk h. rewrite post_bind.
  destruct (outc (m h)); [|apply Hm..].
  eapply R_trans; [apply Hm|apply Hk].
Qed.

Lemma respects_ret {A} (a : A) : respects R (ret a).
Proof. intros h. apply R_refl. Qed.

Lemma respects_emit e : respects R (emit e).
Proof. intros h. apply R_refl. Qed.

Lemma respects_pause_exit {A} c : respects R (@pause_exit A c).
Proof.
  unfold pause_exit.
  apply respects_bind; [apply respects_emit|intros _].
  apply respects_bind; [apply respects_emit|intros _].
  intros h. apply R_refl.
Qed.

Lemma respects_fatal {A} msg : respects R (@fatal A msg).
Proof.
  unfold fatal, log.
  apply respects_bind; [apply respects_emit|intros _].
  apply respects_pause_exit.
Qed.

(** ** Steps that only start processes *)

Section Processes.

Hypothesis R_spawn : forall cmd h, R h (after_child cmd h).

Lemma respects_run cmd : respects R (run cmd).
Proof.
  unfold run, log.
  apply respects_bind; [apply respects_emit|intros _].
  apply respects_bind; [intros h; apply R_spawn|intros r].
  destruct (r =? 0); [apply respects_ret|apply respects_fatal].
Qed.

Lemma respects_subprocess_run cmd : respects R (subprocess_run cmd).
Proof. intros h. apply R_spawn. Qed.

Lemma respects_install_cabs cabs :
  forall i total, respects R (install_cabs i total cabs).
Proof.
  induction cabs as [|cab rest IH]; intros i total; cbn [install_cabs].
  - apply respects_ret.
  - unfold log.
    apply respects_bind; [apply respects_emit|intros _].
    apply respects_bind; [apply respects_run|intros _].
    apply respects_bind; [apply respects_emit|intros _].
    apply IH.
Qed.

Lemma respects_prompt_reboot : respects R prompt_reboot.
Proof.
  unfold prompt_reboot.
  apply respects_bind; [apply respects_emit|intros _].
  apply respects_bind; [apply respects_emit|intros _].
  intros h.
  destruct (String.eqb (reboot_answer h) EmptyString
            || String.eqb (reboot_answer h) "y"
            || String.eqb (reboot_answer h) "yes").
  - apply respects_bind; [apply respects_emit|intros _].
    apply respects_subprocess_run.
  - apply respects_bind; [apply respects_emit|intros _].
    apply respects_pause_exit.
Qed.

Lemma respects_install_experience_pack lower appx_files :
  respects R (install_experience_pack lower appx_files).
Proof.
  unfold install_experience_pack, log.
  destruct (find_lep lower appx_files); [|apply respects_emit].
  apply respects_bind; [apply respects_emit|intros _].
  apply respects_run.
Qed.

Lemma respects_apply_locale lang preserve extend :
  respects R (apply_locale lang preserve extend).
Proof.
  unfold apply_locale, log.
  apply respects_bind; [apply respects_emit|intros _].
  apply respects_bind; [apply respects_run|intros _].
  apply respects_bind; [apply respects_emit|intros _].
  apply respects_bind; [apply respects_emit|intros _].
  apply respects_run.
Qed.

Lemma respects_finish : respects R finish.
Proof.
  unfold finish, panel.
  do 4 (apply respects_bind; [apply respects_emit|intros _]).
  apply respects_prompt_reboot.
Qed.

Lemma respects_later lower lang preserve extend appx_files :
  respects R (later lower lang preserve extend appx_files).
Proof.
  unfold later.
  apply respects_bind; [apply respects_install_experience_pack|intros _].
  apply respects_bind; [apply respects_apply_locale|intros _].
  apply respects_finish.
Qed.

Lemma respects_install lower lang preserve extend DRY_RUN appx_files cab_files :
  respects R (install lower lang preserve extend DRY_RUN appx_files cab_files).
Proof.
  unfold install.
  apply respects_bind; [|intros _].
  { destruct DRY_RUN; [|apply respects_ret]. unfold log.
    apply respects_bind; [apply respects_emit|intros _].
    apply respects_pause_exit. }
  unfold panel.
  apply respects_bind; [apply respects_emit|intros _].
  apply respects_bind; [apply respects_install_cabs|intros _].
  apply (respects_later lower lang preserve extend appx_files).
Qed.

End Processes.

End Respects.

Lemma same_content_refl h : same_content h h.
Proof. intros p c Hp. exact Hp. Qed.

Lemma same_content_trans h1 h2 h3 :
  same_content h1 h2 -> same_content h2 h3 -> same_content h1 h3.
Proof. intros H12 H23 p c Hp. apply H23, H12, Hp. Qed.

Lemma same_disk_refl h : same_disk h h.
Proof. reflexivity. Qed.

Lemma same_disk_trans h1 h2 h3 :
  same_disk h1 h2 -> same_disk h2 h3 -> same_disk h1 h3.
Proof. unfold same_disk. congruence. Qed.

Lemma same_oracles_refl h : same_oracles h h.
Proof. repeat split. Qed.

Lemma same_oracles_trans h1 h2 h3 :
  same_oracles h1 h2 -> same_oracles h2 h3 -> same_oracles h1 h3.
Proof.
  intros (Hn & He & Hc & Hr) (Hn' & He' & Hc' & Hr').
  repeat split; congruence.
Qed.

Lemma same_disk_content h h' : same_disk h h' -> same_content h h'.
Proof. intros Hd p c Hp. now rewrite Hd. Qed.

(** [download_file] never changes a file that is on disk. *)
Lemma same_content_download_file url dest :
  respects same_content (download_file url dest).
Proof.
  intros h. destruct (fs h !! path_str dest) as [c0|] eqn:Hdest.
  - rewrite download_file_present by eauto. apply same_content_refl.
  - destruct (net h url) as [reads|] eqn:Hnet.
    + destruct (download_file_absent url dest h reads Hdest Hnet)
        as (-> & _).
      destruct (read_loop_after_open (path_str dest) reads h)
        as (_ & Hother & _).
      intros p c Hp.
      assert (Hne : p <> path_str dest) by congruence.
      now rewrite Hother by exact Hne.
    + rewrite download_file_unreachable by assumption.
      apply same_content_refl.
Qed.

Lemma same_oracles_read_loop dest reads :
  respects same_oracles (read_loop dest reads).
Proof.
  induction reads as [|[chunk|] rest IH]; cbn [read_loop];
    [apply respects_ret, same_oracles_refl| |
     intros h; apply same_oracles_refl].
  destruct (String.eqb chunk EmptyString);
    [apply respects_ret, same_oracles_refl|].
  apply respects_bind; [apply same_oracles_trans| |intros _; exact IH].
  intros h. repeat split.
Qed.

Lemma same_oracles_download_file url dest :
  respects same_oracles (download_file url dest).
Proof.
  intros h. destruct (fs h !! path_str dest) as [c0|] eqn:Hdest.
  - rewrite download_file_present by eauto. apply same_oracles_refl.
  - destruct (net h url) as [reads|] eqn:Hnet.
    + destruct (download_file_absent url dest h reads Hdest Hnet)
        as (-> & _).
      eapply same_oracles_trans; [|apply same_oracles_read_loop].
      repeat split.
    + rewrite download_file_unreachable by assumption.
      apply same_oracles_refl.
Qed.

(** * More properties of the download loop and of [main] *)

Section MoreMainFacts.

Variable unquote : string -> string.
Variable lower : string -> string.
Variable Path_name : string -> string.
Variables APPX_DIR CAB_DIR : string.
Variables lang arch_path arch_token : string.
Variables preserve extend : bool.

Local Abbreviation plan :=
  (find_matches unquote lower lang arch_path arch_token).
Local Abbreviation run_main :=
  (main unquote lower Path_name APPX_DIR CAB_DIR lang arch_path arch_token
        preserve extend).
Local Abbreviation download_all :=
  (transfer unquote lower Path_name APPX_DIR CAB_DIR).
Local Abbreviation dest_for :=
  (dest_of unquote lower Path_name APPX_DIR CAB_DIR).
Local Abbreviation to_appx := (is_package_url unquote lower Path_name).
Local Abbreviation install_with := (install lower lang preserve extend).

Lemma respects_transfer (R : host -> host -> Prop) found :
  (forall h, R h h) ->
  (forall h1 h2 h3, R h1 h2 -> R h2 h3 -> R h1 h3) ->
  (forall url dest, respects R (download_file url dest)) ->
  forall a c, respects R (download_all found a c).
Proof.
  intros Hrefl Htrans Hdl.
  induction found as [|url rest IH]; intros a c.
  - now apply respects_ret.
  - rewrite transfer_cons.
    apply respects_bind; [exact Htrans|apply Hdl|intros _].
    destruct (to_appx url); apply IH.
Qed.

Lemma respects_main (R : host -> host -> Prop) DRY_RUN lines :
  (forall h, R h h) ->
  (forall h1 h2 h3, R h1 h2 -> R h2 h3 -> R h1 h3) ->
  (forall cmd h, R h (after_child cmd h)) ->
  (forall url dest, respects R (download_file url dest)) ->
  respects R (run_main DRY_RUN lines).
Proof.
  intros Hrefl Htrans Hspawn Hdl h.
  destruct (plan lines) eqn:Hplan.
  - rewrite main_no_plan by exact Hplan. apply Hrefl.
  - rewrite main_with_plan by (rewrite Hplan; discriminate).
    apply respects_bind; [exact Htrans|now apply respects_emit|intros _].
    apply respects_bind; [exact Htrans|now apply respects_transfer|].
    intros files. now apply respects_install.
Qed.

(** The connections the loop opens are for urls of [found], in order,
    at most one for each. *)
Lemma transfer_urls found :
  forall a c h,
    sublist (List.filter is_transfer (evs (download_all found a c h)))
            (map EvUrlopen found).
Proof.
  induction found as [|url rest IH]; intros a c h.
  - apply sublist_nil_l.
  - rewrite transfer_cons, evs_bind, List.filter_app. cbn [map].
    assert (Hone : List.filter is_transfer
                     (evs (download_file url (dest_for url) h)) = []
                   \/ List.filter is_transfer
                        (evs (download_file url (dest_for url) h))
                      = [EvUrlopen url]).
    { destruct (fs h !! path_str (dest_for url)) as [c0|] eqn:Hdest.
      - left. now rewrite download_file_present by eauto.
      - right. destruct (net h url) as [reads|] eqn:Hnet.
        + destruct (download_file_absent url (dest_for url) h reads
                      Hdest Hnet) as (_ & _ & ->).
          now rewrite read_loop_no_transfer.
        + now rewrite download_file_unreachable by assumption. }
    assert (Hrest : sublist
                      (List.filter is_transfer
                         match outc (download_file url (dest_for url) h) with
                         | Ret _ =>
                             evs ((if to_appx url
                                   then download_all rest
                                          (a ++ [dest_for url]) c
                                   else download_all rest a
                                          (c ++ [dest_for url]))
                                    (post (download_file url
                                             (dest_for url) h)))
                         | _ => []
                         end)
                      (map EvUrlopen rest)).
    { destruct (outc _); [|apply sublist_nil_l..].
      destruct (to_appx url); apply IH. }
    destruct Hone as [-> | ->]; cbn [app].
    + now apply sublist_cons.
    + now apply sublist_skip.
Qed.

(** The download loop never calls [sys.exit]. *)
Lemma transfer_never_exits found :
  forall a c h code, outc (download_all found a c h) <> Exit code.
Proof.
  induction found as [|url rest IH]; intros a c h code.
  - discriminate.
  - rewrite transfer_cons, outc_bind.
    destruct (outc (download_file url (dest_for url) h)) as [[]|code'|e] eqn:Hd.
    + destruct (to_appx url); apply IH.
    + exfalso. revert Hd.
      destruct (fs h !! path_str (dest_for url)) as [c0|] eqn:Hdest.
      * now rewrite download_file_present by eauto.
      * destruct (net h url) as [reads|] eqn:Hnet.
        -- destruct (download_file_absent url (dest_for url) h reads
                       Hdest Hnet) as (_ & -> & _).
           destruct (read_loop_after_open (path_str (dest_for url)) reads h)
             as (_ & _ & ->).
           now destruct (complete reads).
        -- now rewrite download_file_unreachable by assumption.
    + discriminate.
Qed.

End MoreMainFacts.

(** * How a run ends *)

Lemma app_eq_cons_split {A} (l1 l2 pre rest : list A) (x : A) :
  l1 ++ l2 = pre ++ x :: rest ->
  (exists r1, l1 = pre ++ x :: r1 /\ rest = r1 ++ l2)
  \/ (exists p2, pre = l1 ++ p2 /\ l2 = p2 ++ x :: rest).
Proof.
  revert pre. induction l1 as [|y l1 IH]; intros pre Heq.
  - right. exists pre. split; [reflexivity|exact Heq].
  - destruct pre as [|z pre]; cbn in Heq.
    + injection Heq as -> <-. left. exists l1. split; reflexivity.
    + injection Heq as -> Heq. destruct (IH pre Heq)
        as [(r1 & -> & ->)|(p2 & -> & ->)].
      * left. exists r1. split; reflexivity.
      * right. exists p2. split; reflexivity.
Qed.

Lemma orderly_bind {A B} (m : M A) (k : A -> M B) h :
  orderly (m h) -> (forall a h', orderly (k a h')) -> orderly (bind m k h).
Proof.
  intros [Hgm Hhm] Hk. split.
  - intros c Hout. rewrite outc_bind in Hout. rewrite evs_bind.
    destruct (outc (m h)) as [a| c'|e] eqn:Hm.
    + destruct (proj1 (Hk a (post (m h))) c Hout)
        as [(-> & pre & msg & ->)|(-> & pre & msg & ->)];
        [left|right]; (split; [reflexivity|]);
        exists (evs (m h) ++ pre), msg; now rewrite app_assoc.
    + injection Hout as ->. rewrite app_nil_r.
      destruct (Hgm c) as [(-> & pre & msg & ->)|(-> & pre & msg & ->)];
        [exact Hm| |]; [left|right]; eauto.
    + discriminate.
  - intros pre cmd code rest Hevs Hne. rewrite outc_bind.
    rewrite evs_bind in Hevs.
    apply app_eq_cons_split in Hevs
      as [(r1 & Hm & ->)|(p2 & -> & Hk2)].
    + destruct (Hhm pre cmd code r1 Hm Hne) as [Hout ->].
      rewrite Hout. now rewrite app_nil_r.
    + destruct (outc (m h)) as [a| |];
        [|now destruct p2|now destruct p2].
      exact (proj2 (Hk a (post (m h))) p2 cmd code rest Hk2 Hne).
Qed.

Lemma orderly_silent {A} (r : result A) :
  Forall (fun e => forall cmd code, e <> EvPopen cmd code) (evs r) ->
  (forall c, outc r <> Exit c) -> orderly r.
Proof.
  intros Hq Hne. split.
  - intros c Hc. now destruct (Hne c).
  - intros pre cmd code rest Hevs _. rewrite Hevs in Hq.
    apply Forall_app in Hq as [_ Hq]. apply Forall_cons in Hq as [Hq _].
    now destruct (Hq cmd code).
Qed.

Lemma quiet_not_popen e : quiet e -> forall cmd code, e <> EvPopen cmd code.
Proof. intros Hq cmd code ->. discriminate. Qed.

Lemma orderly_emit e h :
  (forall cmd code, e <> EvPopen cmd code) -> orderly (emit e h).
Proof.
  intros Hq. apply orderly_silent; [|discriminate].
  repeat constructor. exact Hq.
Qed.

Lemma orderly_log level message h : orderly (log level message h).
Proof. apply orderly_emit. discriminate. Qed.

Lemma orderly_ret {A} (a : A) h : orderly (ret a h).
Proof. apply orderly_silent; [constructor|discriminate]. Qed.

Lemma orderly_fatal {A} msg h : orderly (@fatal A msg h).
Proof.
  split.
  - intros c Hc. injection Hc as <-. left. split; [reflexivity|].
    exists [], msg. reflexivity.
  - intros pre cmd code rest Hevs _. exfalso.
    change (evs (@fatal A msg h)) with (fatal_events msg) in Hevs.
    destruct pre as [|? [|? [|? [|? ?]]]]; discriminate.
Qed.

Lemma orderly_warn_exit {A} msg h :
  orderly ((log "WARN" msg ;; @pause_exit A 0)%prog h).
Proof.
  split.
  - intros c Hc. injection Hc as <-. right. split; [reflexivity|].
    exists [], msg. reflexivity.
  - intros pre cmd code rest Hevs _. exfalso.
    change (evs ((log "WARN" msg ;; @pause_exit A 0)%prog h))
      with (warn_exit_events msg) in Hevs.
    destruct pre as [|? [|? [|? [|? ?]]]]; discriminate.
Qed.

Lemma run_evs cmd h :
  evs (run cmd h)
  = EvLog "INFO" ("Running: " +:+ join " " cmd)
    :: EvPopen cmd (exit_code h (spawned h) cmd)
    :: (if exit_code h (spawned h) cmd =? 0 then []
        else fatal_events ("Command failed with exit code "
                           +:+ pretty (exit_code h (spawned h) cmd))).
Proof.
  unfold run. unfold log. rewrite bind_emit. cbn [evs].
  rewrite evs_bind. cbn [popen_wait outc post evs app].
  now destruct (exit_code h (spawned h) cmd =? 0).
Qed.

Lemma orderly_run cmd h : orderly (run cmd h).
Proof.
  split.
  - intros c Hc. rewrite run_outc in Hc. rewrite run_evs.
    destruct (exit_code h (spawned h) cmd =? 0); [discriminate|].
    injection Hc as <-. left. split; [reflexivity|].
    eexists [_; _], _. reflexivity.
  - intros pre c code rest Hevs Hne. rewrite run_outc.
    rewrite run_evs in Hevs.
    destruct pre as [|e0 [|e1 pre]]; [discriminate| |].
    + injection Hevs as _ <- <- <-.
      apply Z.eqb_neq in Hne. now rewrite Hne.
    + exfalso. injection Hevs as _ _ Hevs.
      destruct (exit_code h (spawned h) cmd =? 0);
        [now destruct pre|].
      unfold fatal_events in Hevs.
      destruct pre as [|? [|? [|? [|? ?]]]]; discriminate.
Qed.

Lemma orderly_install_cabs cabs :
  forall i total h, orderly (install_cabs i total cabs h).
Proof.
  induction cabs as [|cab rest IH]; intros i total h; cbn [install_cabs].
  - apply orderly_ret.
  - apply orderly_bind; [apply orderly_log|intros _ h1].
    apply orderly_bind; [apply orderly_run|intros _ h2].
    apply orderly_bind; [apply orderly_log|intros _ h3].
    apply IH.
Qed.

Lemma orderly_prompt_reboot h : orderly (prompt_reboot h).
Proof.
  unfold prompt_reboot.
  apply orderly_bind; [apply orderly_emit; discriminate|intros _ h1].
  apply orderly_bind; [apply orderly_emit; discriminate|intros _ h2].
  destruct (String.eqb (reboot_answer h2) EmptyString
            || String.eqb (reboot_answer h2) "y"
            || String.eqb (reboot_answer h2) "yes").
  - apply orderly_bind; [apply orderly_log|intros _ h3].
    apply orderly_emit. discriminate.
  - apply orderly_warn_exit.
Qed.

Lemma orderly_later lower lang preserve extend appx_files h :
  orderly (later lower lang preserve extend appx_files h).
Proof.
  unfold later.
  apply orderly_bind; [|intros _ h1; apply orderly_bind; [|intros _ h2]].
  - unfold install_experience_pack.
    destruct (find_lep lower appx_files); [|apply orderly_log].
    apply orderly_bind; [apply orderly_log|intros _ h1].
    apply orderly_run.
  - unfold apply_locale.
    apply orderly_bind; [apply orderly_log|intros _ h2].
    apply orderly_bind; [apply orderly_run|intros _ h3].
    apply orderly_bind; [apply orderly_log|intros _ h4].
    apply orderly_bind; [apply orderly_log|intros _ h5].
    apply orderly_run.
  - unfold finish, panel.
    do 4 (apply orderly_bind;
          [apply orderly_emit; discriminate|intros _ ?]).
    apply orderly_prompt_reboot.
Qed.

Lemma orderly_install lower lang preserve extend DRY_RUN appx_files cab_files h :
  orderly (install lower lang preserve extend DRY_RUN appx_files cab_files h).
Proof.
  unfold install.
  apply orderly_bind; [|intros _ h1].
  { destruct DRY_RUN; [apply orderly_warn_exit|apply orderly_ret]. }
  apply orderly_bind; [apply orderly_emit; discriminate|intros _ h2].
  apply orderly_bind; [apply orderly_install_cabs|intros _ h3].
  apply (orderly_later lower lang preserve extend appx_files).
Qed.

(** ** Which events a stage can produce *)

Lemma run_events_run cmd :
  evs_all (fun e => is_run_event e = true) (run cmd).
Proof.
  intros h. rewrite run_evs.
  destruct (exit_code h (spawned h) cmd =? 0); repeat constructor.
Qed.

Lemma run_events_log level message :
  evs_all (fun e => is_run_event e = true) (log level message).
Proof. now apply evs_all_emit. Qed.

Lemma run_events_install_cabs cabs :
  forall i total,
    evs_all (fun e => is_run_event e = true) (install_cabs i total cabs).
Proof.
  induction cabs as [|cab rest IH]; intros i total; cbn [install_cabs].
  - apply evs_all_ret.
  - apply evs_all_bind; [apply run_events_log|intros _].
    apply evs_all_bind; [apply run_events_run|intros _].
    apply evs_all_bind; [apply run_events_log|intros _].
    apply IH.
Qed.

Lemma run_events_install_experience_pack lower appx_files :
  evs_all (fun e => is_run_event e = true)
          (install_experience_pack lower appx_files).
Proof.
  unfold install_experience_pack.
  destruct (find_lep lower appx_files); [|apply run_events_log].
  apply evs_all_bind; [apply run_events_log|intros _].
  apply run_events_run.
Qed.

Lemma run_events_apply_locale lang preserve extend :
  evs_all (fun e => is_run_event e = true)
          (apply_locale lang preserve extend).
Proof.
  unfold apply_locale.
  apply evs_all_bind; [apply run_events_log|intros _].
  apply evs_all_bind; [apply run_events_run|intros _].
  apply evs_all_bind; [apply run_events_log|intros _].
  apply evs_all_bind; [apply run_events_log|intros _].
  apply run_events_run.
Qed.

Lemma run_event_install e : is_run_event e = true -> is_install_event e = true.
Proof. now destruct e. Qed.

Lemma install_events_finish :
  evs_all (fun e => is_install_event e = true) finish.
Proof.
  unfold finish, panel, prompt_reboot.
  repeat (apply evs_all_bind; [now apply evs_all_emit|intros _]).
  intros h.
  destruct (String.eqb (reboot_answer h) EmptyString
            || String.eqb (reboot_answer h) "y"
            || String.eqb (reboot_answer h) "yes");
    repeat constructor.
Qed.

Lemma install_events_install
      lower lang preserve extend DRY_RUN appx_files cab_files :
  evs_all (fun e => is_install_event e = true)
          (install lower lang preserve extend DRY_RUN appx_files cab_files).
Proof.
  assert (Hweak : forall A (m : M A),
             evs_all (fun e => is_run_event e = true) m ->
             evs_all (fun e => is_install_event e = true) m).
  { intros A m Hm h. eapply Forall_impl; [apply Hm|].
    intros e. apply run_event_install. }
  unfold install.
  apply evs_all_bind; [|intros _].
  { destruct DRY_RUN; [|apply evs_all_ret]. intros h. repeat constructor. }
  apply evs_all_bind; [now apply evs_all_emit|intros _].
  apply evs_all_bind; [apply Hweak, run_events_install_cabs|intros _].
  unfold later.
  apply evs_all_bind;
    [apply Hweak, run_events_install_experience_pack|intros _].
  apply evs_all_bind; [apply Hweak, run_events_apply_locale|intros _].
  apply install_events_finish.
Qed.

Lemma filter_lookup_split {A} (f : A -> bool) (l : list A) :
  forall i x,
    List.filter f l !! i = Some x ->
    exists pre rest,
      l = pre ++ x :: rest /\ length (List.filter f pre) = i.
Proof.
  induction l as [|y l IH]; intros i x Hi; [discriminate|].
  cbn [List.filter] in Hi. destruct (f y) eqn:Hy.
  - destruct i as [|i]; cbn in Hi.
    + injection Hi as ->. exists [], l. split; reflexivity.
    + destruct (IH i x Hi) as (pre & rest & -> & Hlen).
      exists (y :: pre), rest. split; [reflexivity|].
      cbn [List.filter]. rewrite Hy. cbn. now rewrite Hlen.
  - destruct (IH i x Hi) as (pre & rest & -> & Hlen).
    exists (y :: pre), rest. split; [reflexivity|].
    cbn [List.filter]. now rewrite Hy.
Qed.

Lemma install_event_offline e :
  is_install_event e = true -> is_transfer e = false /\ is_file_write e = false.
Proof. now destruct e. Qed.

Lemma filter_none {A} (f : A -> bool) (l : list A) :
  Forall (fun x => f x = false) l -> List.filter f l = [].
Proof.
  induction 1 as [|x l Hx _ IH]; [reflexivity|].
  cbn [List.filter]. now rewrite Hx.
Qed.

Section RunFacts.

Variable unquote : string -> string.
Variable lower : string -> string.
Variable Path_name : string -> string.
Variables APPX_DIR CAB_DIR : string.
Variables lang arch_path arch_token : string.
Variables preserve extend : bool.

Local Abbreviation plan :=
  (find_matches unquote lower lang arch_path arch_token).
Local Abbreviation run_main :=
  (main unquote lower Path_name APPX_DIR CAB_DIR lang arch_path arch_token
        preserve extend).
Local Abbreviation download_all :=
  (transfer unquote lower Path_name APPX_DIR CAB_DIR).
Local Abbreviation install_with := (install lower lang preserve extend).

Lemma orderly_transfer found a c h : orderly (download_all found a c h).
Proof.
  apply orderly_silent; [|apply transfer_never_exits].
  eapply Forall_impl; [apply quiet_transfer|]. apply quiet_not_popen.
Qed.

Lemma orderly_main DRY_RUN lines h : orderly (run_main DRY_RUN lines h).
Proof.
  destruct (plan lines) eqn:Hplan.
  - rewrite main_no_plan by exact Hplan.
    exact (orderly_fatal (A := unit) "No matching files found" h).
  - rewrite main_with_plan by (rewrite Hplan; discriminate).
    apply orderly_bind; [apply orderly_emit; discriminate|intros _ h1].
    apply orderly_bind; [apply orderly_transfer|intros files h2].
    apply orderly_install.
Qed.

(** The events of a run with a plan: the panel, the downloads, then the
    installation. *)
Lemma main_events DRY_RUN lines h :
  plan lines <> [] ->
  exists later_part,
    evs (run_main DRY_RUN lines h)
    = (EvPanel (file_list unquote Path_name (plan lines))
       :: evs (download_all (plan lines) [] [] h)) ++ later_part
    /\ Forall (fun e => is_install_event e = true) later_part
    /\ (forall files,
          outc (download_all (plan lines) [] [] h) = Ret files ->
          later_part
          = evs (install_with DRY_RUN (fst files) (snd files)
                   (post (download_all (plan lines) [] [] h))))
    /\ ((forall files,
            outc (download_all (plan lines) [] [] h) <> Ret files) ->
        later_part = []).
Proof.
  intros Hsome. rewrite main_with_plan by exact Hsome.
  unfold panel. rewrite bind_emit. cbn [evs]. rewrite evs_bind.
  destruct (outc (download_all (plan lines) [] [] h)) as [files| |] eqn:Hout.
  - eexists. split; [reflexivity|]. split; [apply install_events_install|].
    split; [now intros ? [= <-]|]. intros Hno. now destruct (Hno files).
  - exists []. repeat split; try constructor; intros; discriminate.
  - exists []. repeat split; try constructor; intros; discriminate.
Qed.

End RunFacts.

(** * Children and the disk *)

Lemma kept_refl p c h : kept p c h h.
Proof. intros Hs Hp. split; assumption. Qed.

Lemma kept_trans p c h1 h2 h3 :
  kept p c h1 h2 -> kept p c h2 h3 -> kept p c h1 h3.
Proof.
  intros H12 H23 Hs Hp. destruct (H12 Hs Hp) as [Hs2 Hp2].
  exact (H23 Hs2 Hp2).
Qed.

Lemma kept_child p c cmd h : kept p c h (after_child cmd h).
Proof.
  intros Hs Hp. split; [exact Hs|].
  cbn [after_child fs]. now rewrite Hs.
Qed.

Lemma kept_download_file p c url dest :
  respects (kept p c) (download_file url dest).
Proof.
  intros h Hs Hp. split.
  - destruct (same_oracles_download_file url dest h) as (_ & _ & Hc & _).
    unfold children_skip. rewrite Hc. exact Hs.
  - now apply same_content_download_file.
Qed.

Lemma untouched_refl p h : untouched p h h.
Proof. intros Hs. split; [exact Hs|reflexivity]. Qed.

Lemma untouched_trans p h1 h2 h3 :
  untouched p h1 h2 -> untouched p h2 h3 -> untouched p h1 h3.
Proof.
  intros H12 H23 Hs. destruct (H12 Hs) as [Hs2 Hp2].
  destruct (H23 Hs2) as [Hs3 Hp3]. split; [exact Hs3|congruence].
Qed.

Lemma untouched_child p cmd h : untouched p h (after_child cmd h).
Proof. intros Hs. split; [exact Hs|]. cbn [after_child fs]. apply Hs. Qed.

(** * How a step can end *)





Lemma settled_fatal {A} msg : settled (@fatal A msg).
Proof. intros h exn. discriminate. Qed.









(** ** The download loop neither fails loudly nor waits *)




(** * More properties of a run *)

Section MoreRun.

Variable unquote : string -> string.
Variable lower : string -> string.
Variable Path_name : string -> string.
Variables APPX_DIR CAB_DIR : string.
Variables lang arch_path arch_token : string.
Variables preserve extend : bool.

Local Abbreviation plan :=
  (find_matches unquote lower lang arch_path arch_token).
Local Abbreviation run_main :=
  (main unquote lower Path_name APPX_DIR CAB_DIR lang arch_path arch_token
        preserve extend).
Local Abbreviation download_all :=
  (transfer unquote lower Path_name APPX_DIR CAB_DIR).
Local Abbreviation install_with := (install lower lang preserve extend).


(** A dry run leaves the host the download loop leaves. *)
Lemma main_dry_post lines h :
  post (run_main true lines h) = post (download_all (plan lines) [] [] h).
Proof.
  destruct (plan lines) eqn:Hplan.
  { now rewrite main_no_plan. }
  rewrite <- Hplan.
  rewrite main_with_plan by (rewrite Hplan; discriminate).
  unfold panel. rewrite bind_emit. cbn [post]. rewrite post_bind.
  destruct (outc (download_all (plan lines) [] [] h));
    [now rewrite install_dry|reflexivity|reflexivity].
Qed.


(** X3: [main] itself never changes a file that is on disk. A file
    that is there when [main] starts has the same content when a dry
    run ends, however it ends; and when an installing run ends,
    provided no child process of the run ([dism], PowerShell,
    [shutdown]) touches that path. *)
Theorem existing_files_are_never_changed
        (DRY_RUN : bool) (lines : list string) (h : host)
        (p c : string) :
  fs h !! p = Some c ->
  (DRY_RUN = false -> children_skip p h) ->
  fs (post (run_main DRY_RUN lines h)) !! p = Some c.
Proof.
  intros Hp Hskip. destruct DRY_RUN.
  - rewrite main_dry_post.
    apply (respects_transfer unquote lower Path_name APPX_DIR CAB_DIR
             same_content (plan lines) same_content_refl same_content_trans
             same_content_download_file [] [] h p c Hp).
  - apply (respects_main unquote lower Path_name APPX_DIR CAB_DIR
             lang arch_path arch_token preserve extend (kept p c) false lines
             (kept_refl p c) (kept_trans p c) (kept_child p c)
             (kept_download_file p c) h (Hskip eq_refl) Hp).
Qed.

(** X4: a dry run and an installing run on the same host and manifest
    open the same connections and write the same files. The dry run
    leaves the disk as the download loop leaves it, and the installing
    run leaves every path that no child process touches as the dry run
    leaves it: what differs was written by a child. *)
Theorem dry_run_downloads_the_same (lines : list string) (h : host) :
  List.filter is_transfer (evs (run_main true lines h))
  = List.filter is_transfer (evs (run_main false lines h))
  /\ List.filter is_file_write (evs (run_main true lines h))
     = List.filter is_file_write (evs (run_main false lines h))
  /\ fs (post (run_main true lines h))
     = fs (post (download_all (plan lines) [] [] h))
  /\ forall p,
      children_skip p h ->
      fs (post (run_main false lines h)) !! p
      = fs (post (run_main true lines h)) !! p.
Proof.
  assert (Hev : forall f : event -> bool,
             (forall e, is_install_event e = true -> f e = false) ->
             List.filter f (evs (run_main true lines h))
             = List.filter f (evs (run_main false lines h))).
  { intros f Hf. destruct (plan lines) eqn:Hplan.
    { now rewrite !main_no_plan by exact Hplan. }
    assert (Hsome : plan lines <> []) by (rewrite Hplan; discriminate).
    destruct (main_events unquote lower Path_name APPX_DIR CAB_DIR
                lang arch_path arch_token preserve extend true lines h Hsome)
      as (l1 & -> & Hl1 & _).
    destruct (main_events unquote lower Path_name APPX_DIR CAB_DIR
                lang arch_path arch_token preserve extend false lines h Hsome)
      as (l2 & -> & Hl2 & _).
    rewrite !List.filter_app.
    rewrite (filter_none f l1), (filter_none f l2); [reflexivity|..];
      (eapply Forall_impl; [eassumption|]); exact Hf. }
  split; [apply Hev; intros e He; now apply install_event_offline|].
  split; [apply Hev; intros e He; now apply install_event_offline|].
  split; [now rewrite main_dry_post|].
  intros p Hskip. rewrite main_dry_post.
  destruct (plan lines) eqn:Hplan.
  { now rewrite main_no_plan. }
  rewrite <- Hplan.
  rewrite main_with_plan by (rewrite Hplan; discriminate).
  unfold panel. rewrite bind_emit. cbn [post]. rewrite post_bind.
  destruct (outc (download_all (plan lines) [] [] h)) as [files| |];
    [|reflexivity|reflexivity].
  assert (Hs : children_skip p (post (download_all (plan lines) [] [] h))).
  { destruct (respects_transfer unquote lower Path_name APPX_DIR CAB_DIR
                same_oracles (plan lines) same_oracles_refl
                same_oracles_trans same_oracles_download_file [] [] h)
      as (_ & _ & Hc & _).
    unfold children_skip. rewrite Hc. exact Hskip. }
  apply (respects_install (untouched p) (untouched_refl p)
           (untouched_trans p) (untouched_child p)
           lower lang preserve extend false (fst files) (snd files)
           _ Hs).
Qed.

(** X5: the connections a run opens are for references of the plan, in
    plan order and at most one for each planned entry; so a url that is
    fetched is a manifest line that is not WinPE-flagged. *)
Theorem only_planned_urls_are_fetched
        (DRY_RUN : bool) (lines : list string) (h : host) (url : string) :
  In (EvUrlopen url) (evs (run_main DRY_RUN lines h)) ->
  In url lines
  /\ is_winpe (lower (unquote url)) = false
  /\ sublist (List.filter is_transfer (evs (run_main DRY_RUN lines h)))
             (map EvUrlopen (plan lines)).
Proof.
  intros Hin.
  assert (Hsub : sublist
                   (List.filter is_transfer (evs (run_main DRY_RUN lines h)))
                   (map EvUrlopen (plan lines))).
  { destruct (plan lines) eqn:Hplan.
    { rewrite main_no_plan by exact Hplan. apply sublist_nil_l. }
    rewrite <- Hplan.
    assert (Hsome : plan lines <> []) by (rewrite Hplan; discriminate).
    destruct (main_events unquote lower Path_name APPX_DIR CAB_DIR
                lang arch_path arch_token preserve extend DRY_RUN lines h
                Hsome) as (l1 & -> & Hl1 & _).
    rewrite List.filter_app, (filter_none is_transfer l1), app_nil_r.
    - cbn [List.filter is_transfer]. apply transfer_urls.
    - eapply Forall_impl; [exact Hl1|].
      intros e He. now apply install_event_offline. }
  assert (Hplanned : In url (plan lines)).
  { assert (Hf : EvUrlopen url
                 ∈ List.filter is_transfer (evs (run_main DRY_RUN lines h))).
    { apply list_elem_of_In, filter_In. split; [exact Hin|reflexivity]. }
    pose proof (elem_of_sublist _ _ _ Hf Hsub) as Hmem.
    apply list_elem_of_In, in_map_iff in Hmem as (u & [= ->] & Hu).
    exact Hu. }
  apply In_find_matches in Hplanned as [Hline Hacc].
  split; [exact Hline|]. split; [|exact Hsub].
  unfold accepted in Hacc.
  now destruct (is_winpe (lower (unquote url))).
Qed.

(** X6: when the download loop raises, [main] ends with that exception
    right there: its events are the file panel and the loop's events,
    and no process was started. *)
Theorem download_failure_aborts
        (DRY_RUN : bool) (lines : list string) (h : host) (exn : string) :
  plan lines <> [] ->
  outc (download_all (plan lines) [] [] h) = Raise exn ->
  outc (run_main DRY_RUN lines h) = Raise exn
  /\ evs (run_main DRY_RUN lines h)
     = EvPanel (file_list unquote Path_name (plan lines))
       :: evs (download_all (plan lines) [] [] h)
  /\ invocations (evs (run_main DRY_RUN lines h)) = [].
Proof.
  intros Hsome Hraise.
  assert (Hevs : evs (run_main DRY_RUN lines h)
                 = EvPanel (file_list unquote Path_name (plan lines))
                   :: evs (download_all (plan lines) [] [] h)).
  { rewrite main_with_plan by exact Hsome.
    unfold panel. rewrite bind_emit. cbn [evs].
    now rewrite evs_bind, Hraise, app_nil_r. }
  split; [|split; [exact Hevs|]].
  - rewrite main_with_plan by exact Hsome.
    unfold panel. rewrite bind_emit. cbn [outc].
    now rewrite outc_bind, Hraise.
  - rewrite Hevs.
    change (invocations (EvPanel ?t :: ?es)) with (invocations es).
    apply quiet_invocations, quiet_transfer.
Qed.

(** X7: in every run the events split in two: first events that start
    no process, then events that are console output, console input or
    process starts. Once a process has been started, no connection is
    opened, no directory made and no file written. *)
Theorem downloads_precede_installation
        (DRY_RUN : bool) (lines : list string) (h : host) :
  exists before after,
    evs (run_main DRY_RUN lines h) = before ++ after
    /\ Forall (fun e => is_invocation e = false) before
    /\ Forall (fun e => is_install_event e = true) after.
Proof.
  destruct (plan lines) eqn:Hplan.
  { rewrite main_no_plan by exact Hplan.
    exists (fatal_events "No matching files found"), [].
    rewrite app_nil_r. repeat constructor. }
  assert (Hsome : plan lines <> []) by (rewrite Hplan; discriminate).
  destruct (main_events unquote lower Path_name APPX_DIR CAB_DIR
              lang arch_path arch_token preserve extend DRY_RUN lines h
              Hsome) as (l1 & -> & Hl1 & _).
  eexists _, l1. split; [reflexivity|]. split; [|exact Hl1].
  constructor; [reflexivity|]. apply quiet_transfer.
Qed.

(** X8: whichever process of a run exits with a non-zero code, cabinet
    install, provisioning or locale command, it is the last process
    the run starts; the run logs the failure with the code, waits for
    Enter and ends with [sys.exit(1)]. *)
Theorem any_failure_is_fatal
        (DRY_RUN : bool) (lines : list string) (h : host)
        (i : nat) (cmd : list string) (code : Z) :
  invocations (evs (run_main DRY_RUN lines h)) !! i = Some (EvPopen cmd code) ->
  code <> 0 ->
  outc (run_main DRY_RUN lines h) = Exit 1
  /\ length (invocations (evs (run_main DRY_RUN lines h))) = S i
  /\ exists before,
      evs (run_main DRY_RUN lines h)
      = before ++ EvPopen cmd code
        :: fatal_events ("Command failed with exit code " +:+ pretty code).
Proof.
  intros Hi Hne.
  apply filter_lookup_split in Hi as (before & rest & Hevs & Hlen).
  destruct (proj2 (orderly_main unquote lower Path_name APPX_DIR CAB_DIR
                     lang arch_path arch_token preserve extend
                     DRY_RUN lines h) before cmd code rest Hevs Hne)
    as [Hout ->].
  split; [exact Hout|]. split; [|exists before; exact Hevs].
  rewrite Hevs, invocations_app, length_app.
  unfold invocations in *. rewrite Hlen. cbn. lia.
Qed.


End MoreRun.

(** * A run in which every process succeeds *)

Lemma all_zero_same h h' : same_oracles h h' -> all_zero h -> all_zero h'.
Proof. intros (_ & He & _) Hz n cmd. rewrite He. apply Hz. Qed.

Lemma wants_reboot_same h h' :
  same_oracles h h' -> wants_reboot h' = wants_reboot h.
Proof. intros (_ & _ & _ & Hr). unfold wants_reboot. now rewrite Hr. Qed.

Lemma same_oracles_spawn cmd h : same_oracles h (after_child cmd h).
Proof. repeat split. Qed.

Lemma run_ok cmd h :
  all_zero h ->
  outc (run cmd h) = Ret tt
  /\ invocations (evs (run cmd h)) = [EvPopen cmd 0]
  /\ same_oracles h (post (run cmd h)).
Proof.
  intros Hz. rewrite run_outc, run_invocations, Hz.
  repeat split;
    apply (respects_run same_oracles same_oracles_refl same_oracles_trans
             same_oracles_spawn).
Qed.

Lemma install_cabs_ok cabs :
  forall i total h,
    all_zero h ->
    outc (install_cabs i total cabs h) = Ret tt
    /\ invocations (evs (install_cabs i total cabs h)) = installed cabs
    /\ same_oracles h (post (install_cabs i total cabs h)).
Proof.
  induction cabs as [|cab rest IH]; intros i total h Hz.
  - repeat split.
  - cbn [install_cabs]. unfold log. rewrite bind_emit.
    cbn [outc post evs]. rewrite invocations_log.
    rewrite outc_bind, post_bind, evs_bind, invocations_app.
    destruct (run_ok (dism_cmd cab) h Hz) as (-> & -> & Hsame).
    rewrite bind_emit. cbn [outc post evs]. rewrite invocations_log.
    destruct (IH (S i) total (post (run (dism_cmd cab) h))
                (all_zero_same _ _ Hsame Hz)) as (-> & -> & Hsame').
    repeat split; try apply (same_oracles_trans _ _ _ Hsame Hsame').
Qed.

Lemma install_experience_pack_ok lower appx_files h :
  all_zero h ->
  outc (install_experience_pack lower appx_files h) = Ret tt
  /\ invocations (evs (install_experience_pack lower appx_files h))
     = match find_lep lower appx_files with
       | Some lep =>
           [EvPopen (provision_cmd lep (find_lic lower appx_files)) 0]
       | None => []
       end
  /\ same_oracles h (post (install_experience_pack lower appx_files h)).
Proof.
  intros Hz. unfold install_experience_pack.
  destruct (find_lep lower appx_files) as [lep|];
    [|repeat split].
  unfold log. rewrite bind_emit. cbn [outc post evs].
  rewrite invocations_log. now apply run_ok.
Qed.

Lemma apply_locale_ok lang preserve extend h :
  all_zero h ->
  outc (apply_locale lang preserve extend h) = Ret tt
  /\ invocations (evs (apply_locale lang preserve extend h))
     = [ EvPopen (powershell_cmd (ps_cmd extend preserve lang)) 0;
         EvPopen (powershell_cmd (ps_cmd_login lang)) 0 ]
  /\ same_oracles h (post (apply_locale lang preserve extend h)).
Proof.
  intros Hz. unfold apply_locale, log. rewrite bind_emit.
  cbn [outc post evs]. rewrite invocations_log.
  rewrite outc_bind, post_bind, evs_bind, invocations_app.
  destruct (run_ok (powershell_cmd (ps_cmd extend preserve lang)) h Hz)
    as (-> & -> & Hsame).
  rewrite !bind_emit. cbn [outc post evs]. rewrite !invocations_log.
  destruct (run_ok (powershell_cmd (ps_cmd_login lang)) _
              (all_zero_same _ _ Hsame Hz)) as (-> & -> & Hsame').
  repeat split; try apply (same_oracles_trans _ _ _ Hsame Hsame').
Qed.

(** [finish]: console events, then the reboot or the pause. *)
Lemma finish_events h :
  exists shown,
    Forall (fun e => is_console e = true) shown
    /\ evs (finish h)
       = shown
         ++ (if wants_reboot h
             then [ EvLog "INFO" "Rebooting system now";
                    EvSubprocessRun shutdown_cmd ]
             else warn_exit_events
                    "Reboot skipped. Please reboot manually to apply language changes.")
    /\ outc (finish h) = if wants_reboot h then Ret tt else Exit 0.
Proof.
  unfold finish, panel, prompt_reboot. rewrite !bind_emit.
  cbn [outc evs]. unfold wants_reboot.
  destruct (String.eqb (reboot_answer h) EmptyString
            || String.eqb (reboot_answer h) "y"
            || String.eqb (reboot_answer h) "yes");
    (eexists [_; _; _; _; _; _]; split; [|split; reflexivity];
     repeat constructor).
Qed.

Lemma console_quiet (es : list event) :
  Forall (fun e => is_console e = true) es -> invocations es = [].
Proof.
  intros Hc. apply quiet_invocations.
  eapply Forall_impl; [exact Hc|]. intros e He. now destruct e.
Qed.

Lemma later_ok lower lang preserve extend appx_files h :
  all_zero h ->
  outc (later lower lang preserve extend appx_files h)
  = (if wants_reboot h then Ret tt else Exit 0)
  /\ invocations (evs (later lower lang preserve extend appx_files h))
     = match find_lep lower appx_files with
       | Some lep =>
           [EvPopen (provision_cmd lep (find_lic lower appx_files)) 0]
       | None => []
       end
       ++ [ EvPopen (powershell_cmd (ps_cmd extend preserve lang)) 0;
            EvPopen (powershell_cmd (ps_cmd_login lang)) 0 ]
       ++ (if wants_reboot h then [EvSubprocessRun shutdown_cmd] else []).
Proof.
  intros Hz. unfold later.
  rewrite outc_bind, evs_bind, invocations_app.
  destruct (install_experience_pack_ok lower appx_files h Hz)
    as (-> & -> & Hs1).
  rewrite outc_bind, evs_bind, invocations_app.
  destruct (apply_locale_ok lang preserve extend _ (all_zero_same _ _ Hs1 Hz))
    as (-> & -> & Hs2).
  pose proof (same_oracles_trans _ _ _ Hs1 Hs2) as Hs.
  destruct (finish_events
              (post (apply_locale lang preserve extend
                       (post (install_experience_pack lower appx_files h)))))
    as (shown & Hshown & -> & ->).
  rewrite (wants_reboot_same _ _ Hs).
  rewrite invocations_app, (console_quiet _ Hshown).
  split; [reflexivity|]. do 2 f_equal.
  now destruct (wants_reboot h).
Qed.

(** Where a process started with [subprocess.run] can come from. *)
Lemma reboot_in_bind {A B} (m : M A) (k : A -> M B) h cmd :
  Forall (fun e => forall c, e <> EvSubprocessRun c) (evs (m h)) ->
  In (EvSubprocessRun cmd) (evs (bind m k h)) ->
  exists a,
    outc (m h) = Ret a
    /\ In (EvSubprocessRun cmd) (evs (k a (post (m h))))
    /\ outc (bind m k h) = outc (k a (post (m h)))
    /\ evs (bind m k h) = evs (m h) ++ evs (k a (post (m h))).
Proof.
  intros Hno Hin. rewrite evs_bind in Hin. rewrite outc_bind, evs_bind.
  apply in_app_or in Hin as [Hin|Hin].
  - rewrite Forall_forall in Hno.
    apply list_elem_of_In in Hin. now destruct (Hno _ Hin cmd).
  - destruct (outc (m h)) as [a| |]; [|destruct Hin..]. eauto.
Qed.

Lemma run_events_no_reboot (es : list event) :
  Forall (fun e => is_run_event e = true) es ->
  Forall (fun e => forall c, e <> EvSubprocessRun c) es.
Proof.
  intros H. eapply Forall_impl; [exact H|].
  intros e He c ->. discriminate.
Qed.

Lemma quiet_no_reboot (es : list event) :
  Forall quiet es -> Forall (fun e => forall c, e <> EvSubprocessRun c) es.
Proof.
  intros H. eapply Forall_impl; [exact H|].
  intros e He c ->. discriminate.
Qed.

Section Success.

Variable unquote : string -> string.
Variable lower : string -> string.
Variable Path_name : string -> string.
Variables APPX_DIR CAB_DIR : string.
Variables lang arch_path arch_token : string.
Variables preserve extend : bool.

Local Abbreviation plan :=
  (find_matches unquote lower lang arch_path arch_token).
Local Abbreviation run_main :=
  (main unquote lower Path_name APPX_DIR CAB_DIR lang arch_path arch_token
        preserve extend).
Local Abbreviation download_all :=
  (transfer unquote lower Path_name APPX_DIR CAB_DIR).
Local Abbreviation install_with := (install lower lang preserve extend).

Lemma same_oracles_transfer found a c h :
  same_oracles h (post (download_all found a c h)).
Proof.
  apply (respects_transfer unquote lower Path_name APPX_DIR CAB_DIR
           same_oracles found same_oracles_refl same_oracles_trans
           same_oracles_download_file).
Qed.

(** X10: in an installing run whose plan is not empty, whose downloads
    return and in which every process exits with 0, the processes
    started are, in this order: [dism] for every cabinet of the plan,
    the provisioning command if a package file is named like an
    experience pack, the user-locale command, the welcome-screen
    command, and [shutdown /r /t 0] exactly when the operator answers
    the reboot question with nothing, [y] or [yes]; the run then
    returns normally, and otherwise ends with [sys.exit(0)]. *)
Theorem successful_run
        (lines : list string) (h : host) (files : list path * list path) :
  plan lines <> [] ->
  outc (download_all (plan lines) [] [] h) = Ret files ->
  all_zero h ->
  outc (run_main false lines h) = (if wants_reboot h then Ret tt else Exit 0)
  /\ invocations (evs (run_main false lines h))
     = installed (snd files)
       ++ match find_lep lower (fst files) with
          | Some lep =>
              [EvPopen (provision_cmd lep (find_lic lower (fst files))) 0]
          | None => []
          end
       ++ [ EvPopen (powershell_cmd (ps_cmd extend preserve lang)) 0;
            EvPopen (powershell_cmd (ps_cmd_login lang)) 0 ]
       ++ (if wants_reboot h then [EvSubprocessRun shutdown_cmd] else []).
Proof.
  intros Hsome Hret Hz.
  pose proof (same_oracles_transfer (plan lines) [] [] h) as Hs0.
  rewrite main_with_plan by exact Hsome.
  unfold panel. rewrite bind_emit. cbn [outc evs].
  change (invocations (EvPanel ?t :: ?es)) with (invocations es).
  rewrite outc_bind, evs_bind, invocations_app, Hret.
  rewrite (quiet_invocations _ (quiet_transfer _ _ _ _ _ _ _ _ h)).
  cbn [app]. rewrite install_wet.
  unfold panel. rewrite bind_emit. cbn [outc evs].
  change (invocations (EvPanel ?t :: ?es)) with (invocations es).
  rewrite outc_bind, evs_bind, invocations_app.
  destruct (install_cabs_ok (snd files) 1 (length (snd files)) _
              (all_zero_same _ _ Hs0 Hz)) as (-> & -> & Hs1).
  pose proof (same_oracles_trans _ _ _ Hs0 Hs1) as Hs.
  destruct (later_ok lower lang preserve extend (fst files) _
              (all_zero_same _ _ Hs Hz)) as (-> & ->).
  rewrite (wants_reboot_same _ _ Hs). split; reflexivity.
Qed.

(** X11: [shutdown] is the only command started with [subprocess.run],
    and only at the very end of an installing run that returns
    normally, in which every process exited with 0 and the operator
    asked for the reboot; never in a dry run and never after a
    failure. *)
Theorem reboot_only_after_success
        (DRY_RUN : bool) (lines : list string) (h : host)
        (cmd : list string) :
  In (EvSubprocessRun cmd) (evs (run_main DRY_RUN lines h)) ->
  cmd = shutdown_cmd
  /\ DRY_RUN = false
  /\ wants_reboot h = true
  /\ outc (run_main DRY_RUN lines h) = Ret tt
  /\ (forall c code,
        In (EvPopen c code) (evs (run_main DRY_RUN lines h)) -> code = 0)
  /\ exists before,
      evs (run_main DRY_RUN lines h)
      = before ++ [ EvLog "INFO" "Rebooting system now";
                    EvSubprocessRun shutdown_cmd ].
Proof.
  intros Hin.
  assert (Hmain : cmd = shutdown_cmd /\ DRY_RUN = false
                  /\ wants_reboot h = true
                  /\ outc (run_main DRY_RUN lines h) = Ret tt
                  /\ exists before,
                      evs (run_main DRY_RUN lines h)
                      = before ++ [ EvLog "INFO" "Rebooting system now";
                                    EvSubprocessRun shutdown_cmd ]).
  { destruct (plan lines) eqn:Hplan.
    { rewrite main_no_plan in Hin by exact Hplan.
      cbn in Hin. intuition discriminate. }
    assert (Hsome : plan lines <> []) by (rewrite Hplan; discriminate).
    clear Hplan. rewrite main_with_plan in * by exact Hsome.
    apply reboot_in_bind in Hin as ([] & _ & Hin & -> & ->);
      [|repeat constructor; discriminate].
    apply reboot_in_bind in Hin as (files & _ & Hin & -> & ->);
      [|apply quiet_no_reboot, quiet_transfer].
    pose proof (same_oracles_transfer (plan lines) [] [] h) as Hs0.
    revert Hin Hs0. cbn [post panel emit].
    generalize (post (download_all (plan lines) [] [] h)).
    intros h1 Hin Hs0.
    destruct DRY_RUN.
    { rewrite install_dry in Hin. cbn in Hin. intuition discriminate. }
    rewrite install_wet in *.
    apply reboot_in_bind in Hin as ([] & _ & Hin & -> & ->);
      [|repeat constructor; discriminate].
    apply reboot_in_bind in Hin as ([] & _ & Hin & -> & ->);
      [|apply run_events_no_reboot, run_events_install_cabs].
    pose proof (respects_install_cabs same_oracles same_oracles_refl
                  same_oracles_trans same_oracles_spawn
                  (snd files) 1 (length (snd files)) h1) as Hs1.
    revert Hin Hs1. cbn [post panel emit].
    generalize (post (install_cabs 1 (length (snd files)) (snd files) h1)).
    intros h2 Hin Hs1. unfold later in *.
    apply reboot_in_bind in Hin as ([] & _ & Hin & -> & ->);
      [|apply run_events_no_reboot, run_events_install_experience_pack].
    pose proof (respects_install_experience_pack same_oracles
                  same_oracles_refl same_oracles_trans same_oracles_spawn
                  lower (fst files) h2) as Hs2.
    revert Hin Hs2.
    generalize (post (install_experience_pack lower (fst files) h2)).
    intros h3 Hin Hs2.
    apply reboot_in_bind in Hin as ([] & _ & Hin & -> & ->);
      [|apply run_events_no_reboot, run_events_apply_locale].
    pose proof (respects_apply_locale same_oracles
                  same_oracles_refl same_oracles_trans same_oracles_spawn
                  lang preserve extend h3) as Hs3.
    revert Hin Hs3.
    generalize (post (apply_locale lang preserve extend h3)).
    intros h4 Hin Hs3.
    assert (Hs : same_oracles h h4)
      by eauto using same_oracles_trans.
    destruct (finish_events h4) as (shown & Hshown & Hevs & Hout).
    rewrite Hevs in Hin |- *. rewrite Hout.
    rewrite (wants_reboot_same _ _ Hs) in *.
    apply in_app_or in Hin as [Hin|Hin].
    { rewrite Forall_forall in Hshown.
      apply list_elem_of_In, Hshown in Hin. discriminate. }
    destruct (wants_reboot h).
    - destruct Hin as [Hin|[Hin|[]]]; [discriminate|].
      injection Hin as <-. repeat split.
      eexists. rewrite !app_assoc. reflexivity.
    - cbn in Hin. intuition discriminate. }
  destruct Hmain as (Hcmd & Hdry & Hans & Hout & Hlast).
  repeat split; try assumption.
  intros c code Hc.
  destruct (Z.eq_dec code 0) as [->|Hne]; [reflexivity|].
  apply in_split in Hc as (l1 & l2 & Hevs).
  destruct (proj2 (orderly_main unquote lower Path_name APPX_DIR CAB_DIR
                     lang arch_path arch_token preserve extend
                     DRY_RUN lines h) l1 c code l2 Hevs Hne) as [Hone _].
  congruence.
Qed.

End Success.

(** * Strings: [in], [partition], [split] *)

Lemma prefix_cons (a b : ascii) (p s : string) :
  String.prefix (String a p) (String b s)
  = if Ascii.ascii_dec a b then String.prefix p s else false.
Proof. reflexivity. Qed.

Lemma prefix_iff (p s : string) :
  String.prefix p s = true <-> exists t, s = p +:+ t.
Proof.
  revert s. induction p as [|a p IH]; intros s.
  - split; [intros _; exists s; reflexivity|]. now destruct s.
  - destruct s as [|b s].
    + split; [discriminate|]. intros [t Ht]. discriminate.
    + rewrite prefix_cons. destruct (Ascii.ascii_dec a b) as [->|Hne].
      * rewrite IH. split; intros [t Ht]; exists t.
        -- now rewrite append_cons, Ht.
        -- rewrite append_cons in Ht. now injection Ht.
      * split; [discriminate|]. intros [t Ht].
        rewrite append_cons in Ht. injection Ht as Hab _. now destruct Hne.
Qed.

Lemma str_in_unfold (sub s : string) :
  str_in sub s
  = String.prefix sub s
    || match s with
       | EmptyString => false
       | String _ s' => str_in sub s'
       end.
Proof. now destruct s. Qed.

(** [sub in s] holds exactly when [s] is some text, [sub], some text. *)
Lemma str_in_iff (sub s : string) :
  str_in sub s = true <-> exists a b, s = a +:+ sub +:+ b.
Proof.
  induction s as [|c s IH]; rewrite str_in_unfold, orb_true_iff.
  - rewrite prefix_iff. split.
    + intros [[t Ht]|Hf]; [|discriminate]. exists EmptyString, t. exact Ht.
    + intros (a & b & Hab). left. destruct a; [|discriminate].
      exists b. exact Hab.
  - rewrite prefix_iff, IH. split.
    + intros [[t Ht]|(a & b & Hab)].
      * exists EmptyString, t. exact Ht.
      * exists (String c a), b. now rewrite append_cons, Hab.
    + intros (a & b & Hab). destruct a as [|x a].
      * left. exists b. exact Hab.
      * right. rewrite append_cons in Hab. injection Hab as _ Hab.
        exists a, b. exact Hab.
Qed.

Lemma str_in_middle (a x b s : string) :
  str_in (a +:+ x +:+ b) s = true -> str_in x s = true.
Proof.
  rewrite !str_in_iff. intros (u & v & ->).
  exists (u +:+ a), (b +:+ v). now rewrite !append_assoc.
Qed.

Lemma str_drop_app (p t : string) : str_drop (String.length p) (p +:+ t) = t.
Proof. induction p as [|a p IH]; [now destruct t|exact IH]. Qed.

Lemma str_partition_unfold (sep s : string) :
  str_partition sep s
  = if String.prefix sep s
    then Some (EmptyString, str_drop (String.length sep) s)
    else match s with
         | EmptyString => None
         | String c s' =>
             match str_partition sep s' with
             | Some (before, after) => Some (String c before, after)
             | None => None
             end
         end.
Proof. now destruct s. Qed.

Lemma prefix_drop (sep s : string) :
  String.prefix sep s = true ->
  s = sep +:+ str_drop (String.length sep) s.
Proof.
  intros Hp. apply prefix_iff in Hp as [t ->]. now rewrite str_drop_app.
Qed.

(** [partition] cuts [s] into the text before [sep], [sep], and the
    text after it. *)
Lemma str_partition_app (sep s before after : string) :
  str_partition sep s = Some (before, after) ->
  s = before +:+ sep +:+ after.
Proof.
  revert before after. induction s as [|c s IH]; intros before after;
    rewrite str_partition_unfold.
  - destruct (String.prefix sep EmptyString) eqn:Hp; [|discriminate].
    intros [= <- <-]. now apply prefix_drop.
  - destruct (String.prefix sep (String c s)) eqn:Hp.
    + intros [= <- <-]. now apply prefix_drop.
    + destruct (str_partition sep s) as [[b0 a0]|] eqn:Hs; [|discriminate].
      intros [= <- <-]. now rewrite append_cons, <- (IH b0 a0).
Qed.

(** [partition] finds [sep] exactly when [sep in s]. *)
Lemma str_partition_some (sep s : string) :
  str_in sep s = true <-> exists before after,
                           str_partition sep s = Some (before, after).
Proof.
  split.
  - induction s as [|c s IH]; rewrite str_in_unfold, str_partition_unfold;
      destruct (String.prefix sep _); cbn [orb]; eauto; [discriminate|].
    intros Hin. destruct (IH Hin) as (b0 & a0 & ->). eauto.
  - intros (before & after & Hp). apply str_partition_app in Hp.
    apply str_in_iff. eauto.
Qed.

(** The text before the cut does not contain [sep]: the cut is at the
    leftmost occurrence. *)
Lemma str_partition_leftmost (sep s before after : string) :
  sep <> EmptyString ->
  str_partition sep s = Some (before, after) ->
  str_in sep before = false.
Proof.
  intros Hsep. revert before after.
  induction s as [|c s IH]; intros before after;
    rewrite str_partition_unfold.
  - destruct (String.prefix sep EmptyString); [|discriminate].
    intros [= <- <-]. now destruct sep.
  - destruct (String.prefix sep (String c s)) eqn:Hp.
    + intros [= <- <-]. now destruct sep.
    + destruct (str_partition sep s) as [[b0 a0]|] eqn:Hs; [|discriminate].
      intros [= <- <-]. rewrite str_in_unfold, (IH b0 a0 eq_refl), orb_false_r.
      destruct (String.prefix sep (String c b0)) eqn:Hp'; [|reflexivity].
      apply prefix_iff in Hp' as [t Ht].
      assert (Hfull : String.prefix sep (String c s) = true).
      { apply prefix_iff. exists (t +:+ sep +:+ a0).
        rewrite (str_partition_app _ _ _ _ Hs), <- append_cons, Ht.
        now rewrite append_assoc. }
      congruence.
Qed.

Lemma length_append (a b : string) :
  String.length (a +:+ b) = (String.length a + String.length b)%nat.
Proof.
  induction a as [|x a IH]; [reflexivity|].
  rewrite append_cons. cbn [String.length]. now rewrite IH.
Qed.

(** [sep.join(s.split(sep))] is [s]. *)
Lemma join_split_upto (n : nat) (sep s : string) :
  join sep (split_upto n sep s) = s.
Proof.
  revert s. induction n as [|n IH]; intros s; cbn [split_upto];
    [reflexivity|].
  destruct (str_partition sep s) as [[before after]|] eqn:Hp; [|reflexivity].
  specialize (IH after). apply str_partition_app in Hp. subst s.
  unfold join in *. cbn [String.concat].
  destruct (split_upto n sep after) as [|x xs] eqn:Hs.
  - destruct n; cbn in Hs; [discriminate|].
    now destruct (str_partition sep after) as [[? ?]|].
  - now rewrite IH.
Qed.

(** Every piece list is non-empty and its first piece starts [s]. *)
Lemma split_upto_head (n : nat) (sep s : string) :
  exists first rest tail,
    split_upto n sep s = first :: rest /\ s = first +:+ tail.
Proof.
  destruct n as [|n]; cbn [split_upto].
  - exists s, [], EmptyString. now rewrite append_nil_r.
  - destruct (str_partition sep s) as [[before after]|] eqn:Hp.
    + exists before, (split_upto n sep after), (sep +:+ after).
      split; [reflexivity|]. now apply str_partition_app.
    + exists s, [], EmptyString. now rewrite append_nil_r.
Qed.

(** When [sep in s], [split] gives the text before the leftmost
    occurrence and at least one more piece, which starts the text
    after it. *)
Lemma str_split_found (sep s : string) :
  sep <> EmptyString ->
  str_in sep s = true ->
  exists before after piece rest tail,
    str_partition sep s = Some (before, after)
    /\ str_split sep s = before :: piece :: rest
    /\ after = piece +:+ tail
    /\ piece :: rest = split_upto (pred (String.length s)) sep after.
Proof.
  intros Hsep Hin.
  destruct (proj1 (str_partition_some sep s) Hin) as (before & after & Hp).
  assert (Hlen : exists n, String.length s = S n).
  { pose proof (str_partition_app _ _ _ _ Hp) as ->.
    rewrite !length_append. destruct sep; [contradiction|].
    cbn. exists (String.length before + (String.length sep + String.length after))%nat.
    lia. }
  destruct Hlen as [n Hn].
  destruct (split_upto_head n sep after) as (piece & rest & tail & Hs & Ht).
  exists before, after, piece, rest, tail.
  unfold str_split. rewrite Hn. cbn [split_upto pred]. rewrite Hp, Hs.
  auto.
Qed.

(** * More properties of the matcher *)

Lemma filter_sublist {A} (f : A -> bool) (l : list A) :
  sublist (List.filter f l) l.
Proof.
  induction l as [|x l IH]; [constructor|].
  cbn [List.filter]. destruct (f x); now constructor.
Qed.

Lemma filter_idempotent {A} (f : A -> bool) (l : list A) :
  List.filter f (List.filter f l) = List.filter f l.
Proof.
  induction l as [|x l IH]; [reflexivity|].
  cbn [List.filter]. destruct (f x) eqn:Hx; [|exact IH].
  cbn [List.filter]. now rewrite Hx, IH.
Qed.

(** X12: the matcher decides line by line. The plan is a sub-list of
    the manifest in manifest order; the plan of two manifests put one
    after the other is the two plans put one after the other; and
    matching a plan again gives the plan. *)
Theorem matching_is_line_by_line
        (unquote lower : string -> string)
        (lang arch_path arch_token : string)
        (lines more : list string) :
  sublist (find_matches unquote lower lang arch_path arch_token lines) lines
  /\ find_matches unquote lower lang arch_path arch_token (lines ++ more)
     = find_matches unquote lower lang arch_path arch_token lines
       ++ find_matches unquote lower lang arch_path arch_token more
  /\ find_matches unquote lower lang arch_path arch_token
       (find_matches unquote lower lang arch_path arch_token lines)
     = find_matches unquote lower lang arch_path arch_token lines.
Proof.
  rewrite !find_matches_filter. split; [apply filter_sublist|].
  split; [apply List.filter_app|apply filter_idempotent].
Qed.

(** X13: every reference of the plan is a manifest line whose decoded
    lowercase form contains the selected language tag. *)
Theorem planned_references_name_the_language
        (unquote lower : string -> string)
        (lang arch_path arch_token : string)
        (lines : list string) (line : string) :
  In line (find_matches unquote lower lang arch_path arch_token lines) ->
  In line lines /\ str_in lang (lower (unquote line)) = true.
Proof.
  intros Hin. apply In_find_matches in Hin as [Hline Hacc].
  split; [exact Hline|].
  unfold accepted in Hacc.
  apply andb_true_iff in Hacc as [_ Hrule].
  destruct (str_in (lep_segment lang) (lower (unquote line))) eqn:Hseg.
  - unfold lep_segment in Hseg. now apply str_in_middle in Hseg.
  - apply orb_true_iff in Hrule as [Hcab|Hfod].
    + unfold language_pack_cab in Hcab.
      rewrite <- (append_assoc _ "_" (lang +:+ ".cab")) in Hcab.
      rewrite <- (append_assoc _ (arch_path +:+ "_")) in Hcab.
      now apply str_in_middle in Hcab.
    + apply andb_true_iff in Hfod as [Hfod _]. unfold fod_conditions in Hfod.
      apply andb_true_iff in Hfod as [Hfod _].
      apply andb_true_iff in Hfod as [_ Hpkg].
      now apply str_in_middle in Hpkg.
Qed.

Lemma planned_references_name_the_language_witness :
  str_in "fr-fr" (Sample.decoded Sample.fod_basic) = true.
Proof.
  apply (planned_references_name_the_language
           AsciiLib.unquote AsciiLib.lower "fr-fr" "x64" "amd64"
           Cases.full_manifest Sample.fod_basic).
  vm_compute. tauto.
Defined.

(** * Properties of [extract_languages] *)

Lemma sorted_In (l : list string) (x : string) : In x (sorted l) <-> In x l.
Proof.
  unfold sorted. rewrite <- !list_elem_of_In.
  now rewrite (merge_sort_Permutation String.le l).
Qed.

Lemma sorted_Sorted (l : list string) : Sorted String.le (sorted l).
Proof. apply (Sorted_merge_sort String.le). Qed.

Lemma sorted_NoDup (l : list string) : List.NoDup l -> List.NoDup (sorted l).
Proof.
  unfold sorted. intros Hnd.
  now rewrite (merge_sort_Permutation String.le l).
Qed.

Lemma marker_not_empty : "/localexperiencepack/" <> EmptyString.
Proof. discriminate. Qed.

Lemma slash_not_empty : "/" <> EmptyString.
Proof. discriminate. Qed.

(** Two or more pieces of a split at ["/"]: the first has no slash and
    the text starts with it and a slash. *)
Lemma split_slash_two (piece first second : string) (rest : list string) :
  str_split "/" piece = first :: second :: rest ->
  str_in "/" first = false /\ exists tail, piece = first +:+ "/" +:+ tail.
Proof.
  unfold str_split. intros Hs.
  destruct (String.length piece) as [|n]; [discriminate|].
  cbn [split_upto] in Hs.
  destruct (str_partition "/" piece) as [[before after]|] eqn:Hp;
    [|discriminate].
  injection Hs as -> _. split.
  - exact (str_partition_leftmost _ _ _ _ slash_not_empty Hp).
  - exists after. now apply str_partition_app.
Qed.

Section ExtractFacts.

Variable unquote : string -> string.
Variable lower : string -> string.

Local Abbreviation loop := (extract_loop unquote lower).

(** What one line adds to the set. *)
Lemma extract_loop_cons (l : string) (rest : list string) (langs : gset string) :
  exists langs',
    loop (l :: rest) langs = loop rest langs'
    /\ langs ⊆ langs'
    /\ forall x, x ∈ langs' ->
         x ∈ langs
         \/ (str_in (lep_segment x) (lower (unquote l)) = true
             /\ str_in "/" x = false).
Proof.
  cbn [extract_loop].
  destruct (str_in "/localexperiencepack/" (lower (unquote l))) eqn:Hin;
    [|exists langs; split; [reflexivity|split; [set_solver|auto]]].
  destruct (str_split_found _ _ marker_not_empty Hin)
    as (before & after & piece & more & tail & Hp & -> & Hafter & _).
  destruct (str_split "/" piece) as [|first [|second others]] eqn:Hs;
    [exists langs; split; [reflexivity|split; [set_solver|auto]]..|].
  exists ({[first]} ∪ langs). split; [reflexivity|]. split; [set_solver|].
  intros x Hx. apply elem_of_union in Hx as [Hx|Hx]; [|now left].
  apply elem_of_singleton in Hx as ->. right.
  destruct (split_slash_two _ _ _ _ Hs) as [Hno [t Hpiece]].
  split; [|exact Hno].
  apply str_in_iff. exists before, (t +:+ tail).
  rewrite (str_partition_app _ _ _ _ Hp), Hafter, Hpiece.
  unfold lep_segment. now rewrite !append_assoc.
Qed.

Lemma extract_loop_spec (lines : list string) :
  forall langs,
    exists out,
      loop lines langs = Some out
      /\ langs ⊆ out
      /\ forall x, x ∈ out ->
           x ∈ langs
           \/ exists line,
               In line lines
               /\ str_in (lep_segment x) (lower (unquote line)) = true
               /\ str_in "/" x = false.
Proof.
  induction lines as [|l rest IH]; intros langs.
  - exists langs. split; [reflexivity|]. split; [set_solver|auto].
  - destruct (extract_loop_cons l rest langs) as (langs' & -> & Hsub & Hnew).
    destruct (IH langs') as (out & -> & Hsub' & Hout).
    exists out. split; [reflexivity|]. split; [set_solver|].
    intros x Hx. destruct (Hout x Hx) as [Hx'|(line & Hline & Hseg)].
    + destruct (Hnew x Hx') as [Hl|Hseg]; [now left|].
      right. exists l. split; [now left|exact Hseg].
    + right. exists line. split; [now right|exact Hseg].
Qed.

End ExtractFacts.

(** X14: [extract_languages] never fails at [split(...)[1]], and what
    it returns is in increasing order without duplicates. *)
Theorem extract_languages_sorted
        (unquote lower : string -> string) (lines : list string) :
  exists langs,
    extract_languages unquote lower lines = Some langs
    /\ Sorted String.le langs
    /\ List.NoDup langs.
Proof.
  unfold extract_languages.
  destruct (extract_loop_spec unquote lower lines ∅) as (out & -> & _).
  eexists. split; [reflexivity|]. split; [apply sorted_Sorted|].
  apply sorted_NoDup, NoDup_ListNoDup, NoDup_elements.
Qed.

(** X15: every language [extract_languages] offers has no slash in it
    and comes with a manifest line whose decoded lowercase form
    contains [/localexperiencepack/{lang}/], the segment that rule 1 of
    the matcher tests. *)
Theorem offered_language_has_a_line
        (unquote lower : string -> string) (lines langs : list string)
        (lang : string) :
  extract_languages unquote lower lines = Some langs ->
  In lang langs ->
  str_in "/" lang = false
  /\ exists line,
      In line lines
      /\ str_in (lep_segment lang) (lower (unquote line)) = true.
Proof.
  unfold extract_languages. intros Hext Hin.
  destruct (extract_loop_spec unquote lower lines ∅) as (out & Hout & _ & Hmem).
  rewrite Hout in Hext. injection Hext as <-.
  apply sorted_In, list_elem_of_In, elem_of_elements in Hin.
  destruct (Hmem lang Hin) as [Hempty|(line & Hline & Hseg & Hno)];
    [set_solver|].
  split; [exact Hno|]. exists line. auto.
Qed.

Lemma offered_language_has_a_line_witness :
  str_in "/" "de-de" = false
  /\ exists line,
      In line Inputs.manifest
      /\ str_in (lep_segment "de-de") (Sample.decoded line) = true.
Proof.
  apply (offered_language_has_a_line
           AsciiLib.unquote AsciiLib.lower Inputs.manifest
           ["de-de"; "fr-fr"] "de-de").
  - vm_compute. reflexivity.
  - simpl. auto.
Defined.

Lemma prefix_app_long (sep x y : string) :
  (String.length sep <= String.length x)%nat ->
  String.prefix sep (x +:+ y) = true ->
  String.prefix sep x = true.
Proof.
  revert x. induction sep as [|a sep IH]; intros x Hlen Hp;
    [now destruct x|].
  destruct x as [|b x]; [cbn in Hlen; lia|].
  rewrite append_cons, prefix_cons in Hp. rewrite prefix_cons.
  destruct (Ascii.ascii_dec a b); [|discriminate].
  apply IH; [cbn in Hlen; lia|exact Hp].
Qed.

(** The cut is where [sep] starts, when no occurrence starts earlier. *)
Lemma str_partition_at (init : string) (last : ascii) (a b : string) :
  str_in (init +:+ String last EmptyString) (a +:+ init) = false ->
  str_partition (init +:+ String last EmptyString)
                (a +:+ (init +:+ String last EmptyString) +:+ b)
  = Some (a, b).
Proof.
  set (sep := init +:+ String last EmptyString).
  induction a as [|c a IH]; intros Hno.
  - rewrite str_partition_unfold.
    assert (Hp : String.prefix sep (EmptyString +:+ sep +:+ b) = true)
      by (apply prefix_iff; now exists b).
    rewrite Hp. change (EmptyString +:+ sep +:+ b) with (sep +:+ b).
    now rewrite str_drop_app.
  - rewrite str_in_unfold in Hno. rewrite append_cons in Hno.
    apply orb_false_iff in Hno as [Hhere Hlater].
    rewrite append_cons, str_partition_unfold.
    destruct (String.prefix sep (String c (a +:+ sep +:+ b))) eqn:Hp.
    + exfalso.
      assert (Heq : String c (a +:+ sep +:+ b)
                    = String c (a +:+ init)
                      +:+ (String last EmptyString +:+ b)).
      { rewrite append_cons. f_equal. unfold sep.
        now rewrite !append_assoc. }
      rewrite Heq in Hp. apply prefix_app_long in Hp; [congruence|].
      unfold sep. cbn [String.length]. rewrite !length_append.
      cbn [String.length]. lia.
    + now rewrite (IH Hlater).
Qed.

Lemma split_upto_absent (n : nat) (sep s : string) :
  str_in sep s = false -> split_upto n sep s = [s].
Proof.
  intros Hno. destruct n; [reflexivity|]. cbn [split_upto].
  destruct (str_partition sep s) as [[before after]|] eqn:Hp; [|reflexivity].
  assert (Hin : str_in sep s = true) by (apply str_partition_some; eauto).
  congruence.
Qed.

Section ExtractMore.

Variable unquote : string -> string.
Variable lower : string -> string.

(** A line with one marker, followed by [lang] and a slash, puts
    [lang] in the set. *)
Lemma extract_loop_adds (line : string) (rest : list string)
      (langs : gset string) (pre lang tail : string) :
  lower (unquote line)
  = pre +:+ "/localexperiencepack/" +:+ lang +:+ "/" +:+ tail ->
  str_in "/localexperiencepack/" (pre +:+ "/localexperiencepack") = false ->
  str_in "/" lang = false ->
  str_in "/localexperiencepack/" (lang +:+ "/" +:+ tail) = false ->
  extract_loop unquote lower (line :: rest) langs
  = extract_loop unquote lower rest ({[ lang ]} ∪ langs).
Proof.
  intros Hu Hleft Hlang Honce. cbn [extract_loop]. rewrite Hu.
  assert (Hin : str_in "/localexperiencepack/"
                       (pre +:+ "/localexperiencepack/" +:+ lang +:+ "/"
                            +:+ tail) = true)
    by (apply str_in_iff; eauto).
  rewrite Hin.
  destruct (str_split_found _ _ marker_not_empty Hin)
    as (before & after & piece & more & tl & Hp & -> & _ & Hpieces).
  pose proof (str_partition_at "/localexperiencepack" "/" pre
                (lang +:+ "/" +:+ tail) Hleft) as Hat.
  change ("/localexperiencepack" +:+ "/") with "/localexperiencepack/" in Hat.
  rewrite Hat in Hp. injection Hp as <- <-.
  rewrite (split_upto_absent _ _ _ Honce) in Hpieces.
  injection Hpieces as -> ->.
  unfold str_split.
  assert (Hlen : exists n, String.length (lang +:+ "/" +:+ tail) = S n).
  { rewrite !length_append. cbn [String.length].
    exists (String.length lang + String.length tail)%nat. lia. }
  destruct Hlen as [n ->]. cbn [split_upto].
  assert (Hslash : str_partition "/" (lang +:+ "/" +:+ tail)
                   = Some (lang, tail)).
  { refine (str_partition_at EmptyString "/" lang tail _).
    now rewrite append_nil_r. }
  rewrite Hslash.
  destruct (split_upto_head n "/" tail) as (first & others & _ & -> & _).
  reflexivity.
Qed.

Lemma extract_loop_offers (lines : list string) (line : string)
      (pre lang tail : string) :
  In line lines ->
  lower (unquote line)
  = pre +:+ "/localexperiencepack/" +:+ lang +:+ "/" +:+ tail ->
  str_in "/localexperiencepack/" (pre +:+ "/localexperiencepack") = false ->
  str_in "/" lang = false ->
  str_in "/localexperiencepack/" (lang +:+ "/" +:+ tail) = false ->
  forall langs out,
    extract_loop unquote lower lines langs = Some out -> lang ∈ out.
Proof.
  intros Hin Hu Hleft Hlang Honce.
  induction lines as [|l rest IH]; [destruct Hin|].
  intros langs out Hout. destruct Hin as [->|Hin].
  - rewrite (extract_loop_adds line rest langs pre lang tail) in Hout
      by assumption.
    destruct (extract_loop_spec unquote lower rest ({[lang]} ∪ langs))
      as (out' & Hout' & Hsub & _).
    rewrite Hout' in Hout. injection Hout as <-. set_solver.
  - destruct (extract_loop_cons unquote lower l rest langs)
      as (langs' & Hstep & _).
    rewrite Hstep in Hout. exact (IH Hin langs' out Hout).
Qed.

End ExtractMore.

(** X16: a manifest line whose decoded lowercase form has exactly one
    [/localexperiencepack/], followed by [lang], a slash and more text,
    makes [extract_languages] offer [lang]. *)
Theorem single_segment_line_is_offered
        (unquote lower : string -> string) (lines langs : list string)
        (line pre lang tail : string) :
  In line lines ->
  lower (unquote line)
  = pre +:+ "/localexperiencepack/" +:+ lang +:+ "/" +:+ tail ->
  str_in "/localexperiencepack/" (pre +:+ "/localexperiencepack") = false ->
  str_in "/" lang = false ->
  str_in "/localexperiencepack/" (lang +:+ "/" +:+ tail) = false ->
  extract_languages unquote lower lines = Some langs ->
  In lang langs.
Proof.
  intros Hin Hu Hleft Hlang Honce Hext. unfold extract_languages in Hext.
  destruct (extract_loop unquote lower lines ∅) as [out|] eqn:Hout;
    [|discriminate].
  injection Hext as <-.
  apply sorted_In, list_elem_of_In, elem_of_elements.
  exact (extract_loop_offers unquote lower lines line pre lang tail
           Hin Hu Hleft Hlang Honce ∅ out Hout).
Qed.

Lemma single_segment_line_is_offered_witness :
  In "de-de" ["de-de"; "fr-fr"].
Proof.
  apply (single_segment_line_is_offered
           AsciiLib.unquote AsciiLib.lower Inputs.manifest
           ["de-de"; "fr-fr"]
           "https://h/x/LocalExperiencePack/de-de/a.appx"
           "https://h/x" "de-de" "a.appx").
  - simpl. auto.
  - vm_compute. reflexivity.
  - vm_compute. reflexivity.
  - vm_compute. reflexivity.
  - vm_compute. reflexivity.
  - vm_compute. reflexivity.
Defined.

(** * Properties of [select_language] *)

Lemma choices_from (ls : list string) :
  forall (m : gmap string string) (k v : string),
    fold_left (fun m l => <[label l := l]> m) ls m !! k = Some v ->
    In v ls \/ m !! k = Some v.
Proof.
  induction ls as [|l ls IH]; intros m k v Hk; [now right|].
  cbn [fold_left] in Hk. destruct (IH _ _ _ Hk) as [Hin|Hm].
  - left. now right.
  - destruct (decide (label l = k)) as [<-|Hne].
    + rewrite lookup_insert_eq in Hm. injection Hm as ->. left. now left.
    + rewrite lookup_insert_ne in Hm by exact Hne. now right.
Qed.

Lemma choices_of_values (ls : list string) (k v : string) :
  choices_of ls !! k = Some v -> In v ls.
Proof.
  intros Hk. destruct (choices_from ls ∅ k v Hk) as [Hin|Hm]; [exact Hin|].
  now rewrite lookup_empty in Hm.
Qed.

Lemma choices_keep (ls : list string) :
  forall (m : gmap string string) (k : string),
    ~ In k (map label ls) ->
    fold_left (fun m l => <[label l := l]> m) ls m !! k = m !! k.
Proof.
  induction ls as [|l ls IH]; intros m k Hk; [reflexivity|].
  cbn [fold_left]. rewrite IH by (intros Hin; apply Hk; now right).
  apply lookup_insert_ne. intros Heq. apply Hk. now left.
Qed.

(** With distinct labels every entry is found under its label. *)
Lemma choices_of_label (ls : list string) (l : string) :
  List.NoDup (map label ls) -> In l ls ->
  choices_of ls !! label l = Some l.
Proof.
  unfold choices_of. generalize (∅ : gmap string string).
  induction ls as [|x ls IH]; intros m Hnd Hin; [destruct Hin|].
  cbn [map] in Hnd. apply NoDup_cons_iff in Hnd as [Hx Hnd].
  cbn [fold_left]. destruct Hin as [->|Hin].
  - rewrite choices_keep by exact Hx. apply lookup_insert_eq.
  - now apply IH.
Qed.

Lemma NoDup_map_filter {A B} (f : A -> B) (g : A -> bool) (l : list A) :
  List.NoDup (map f l) -> List.NoDup (map f (List.filter g l)).
Proof.
  induction l as [|x l IH]; intros Hnd; [constructor|].
  cbn [map] in Hnd. apply NoDup_cons_iff in Hnd as [Hx Hnd].
  cbn [List.filter]. destruct (g x); [|now apply IH].
  cbn [map]. constructor; [|now apply IH].
  intros Hin. apply Hx. apply in_map_iff in Hin as (y & <- & Hy).
  apply in_map. now apply filter_In in Hy as [Hy _].
Qed.

Lemma common_labels_distinct : List.NoDup (map label COMMON_LANGS).
Proof.
  apply NoDup_ListNoDup.
  apply (bool_decide_unpack (NoDup (map label COMMON_LANGS))).
  vm_compute. exact I.
Qed.

Lemma available_In (langs : list string) (l : string) :
  In l (sorted (elements (list_to_set langs : gset string))) <-> In l langs.
Proof.
  rewrite sorted_In, <- !list_elem_of_In, elem_of_elements.
  apply elem_of_list_to_set.
Qed.

(** What the menu loop can return. *)
Lemma select_loop_spec (cc ac : gmap string string) (n : nat) :
  forall answers,
    (length answers <= n)%nat ->
    (forall l, select_loop cc ac answers = Selected l ->
               (exists k, cc !! k = Some l) \/ (exists k, ac !! k = Some l))
    /\ (select_loop cc ac answers = Cancelled ->
        In None answers \/ In (Some "Exit") answers).
Proof.
  induction n as [|n IH]; intros answers Hlen.
  { destruct answers; [|cbn in Hlen; lia]. split; [intros l|]; discriminate. }
  destruct answers as [|choice rest];
    [split; [intros l|]; discriminate|].
  cbn [length] in Hlen. cbn [select_loop].
  destruct (choice ≫= (fun c => cc !! c)) as [l0|] eqn:Hcc.
  { split; [|discriminate]. intros l [= <-]. left.
    destruct choice as [c|]; [|discriminate]. exists c. exact Hcc. }
  destruct choice as [c|]; [|split; [discriminate|intros _; left; now left]].
  destruct (String.eqb c "Show all languages") eqn:Hshow.
  - destruct rest as [|sub rest']; [split; [intros l|]; discriminate|].
    cbn [length] in Hlen.
    destruct (IH rest' ltac:(lia)) as [Hsel Hcan].
    assert (Hrec : (forall l, select_loop cc ac rest' = Selected l ->
                       (exists k, cc !! k = Some l)
                       \/ (exists k, ac !! k = Some l))
                   /\ (select_loop cc ac rest' = Cancelled ->
                       In None (Some c :: sub :: rest')
                       \/ In (Some "Exit") (Some c :: sub :: rest'))).
    { split; [exact Hsel|]. intros H. destruct (Hcan H); [left|right];
        now do 2 right. }
    destruct sub as [s|]; [|exact Hrec].
    destruct (negb (String.eqb s EmptyString) && negb (String.eqb s "Back"));
      [|exact Hrec].
    destruct (ac !! s) as [l0|] eqn:Hac; split; try discriminate.
    intros l [= <-]. right. now exists s.
  - destruct (String.eqb c "Exit") eqn:Hexit.
    + split; [discriminate|]. intros _. right. left.
      apply String.eqb_eq in Hexit. now subst c.
    + destruct (IH rest ltac:(lia)) as [Hsel Hcan]. split; [exact Hsel|].
      intros H. destruct (Hcan H); [left|right]; now right.
Qed.

(** X17: whatever the operator answers, a language that
    [select_language] returns is one of the languages it was given. *)
Theorem selection_is_available
        (langs : list string) (answers : list (option string)) (l : string) :
  select_language langs answers = Selected l -> In l langs.
Proof.
  unfold select_language. intros Hl.
  match type of Hl with
  | select_loop ?cc ?ac _ = _ =>
      destruct (select_loop_spec cc ac (length answers) answers (le_n _))
      as [Hsel _]
  end.
  destruct (Hsel l Hl) as [[k Hk]|[k Hk]].
  - apply choices_of_values, filter_In in Hk as [_ Hk].
    apply bool_decide_eq_true_1, list_elem_of_In in Hk.
    now apply available_In.
  - apply choices_of_values in Hk. now apply available_In.
Qed.

Lemma selection_is_available_witness : In "xx-yy" ["fr-fr"; "xx-yy"].
Proof.
  apply (selection_is_available
           ["fr-fr"; "xx-yy"]
           [Some "Show all languages"; Some "Back";
            Some "Show all languages"; Some (label "xx-yy")]).
  vm_compute. reflexivity.
Defined.

(** X18: [select_language] gives up with [fatal] only when a prompt
    was interrupted or the operator chose [Exit]. *)
Theorem cancel_needs_the_operator
        (langs : list string) (answers : list (option string)) :
  select_language langs answers = Cancelled ->
  In None answers \/ In (Some "Exit") answers.
Proof.
  unfold select_language. intros Hc.
  match type of Hc with
  | select_loop ?cc ?ac _ = _ =>
      destruct (select_loop_spec cc ac (length answers) answers (le_n _))
      as [_ Hcan]
  end.
  exact (Hcan Hc).
Qed.

Lemma cancel_needs_the_operator_witness :
  In None [Some "Show all languages"; None; Some "Exit"]
  \/ In (Some "Exit") [Some "Show all languages"; None; Some "Exit"].
Proof.
  apply (cancel_needs_the_operator ["fr-fr"; "de-de"]).
  vm_compute. reflexivity.
Defined.

(** X19: when the operator picks the label of a common language that
    is available, [select_language] returns that language at once. *)
Theorem common_label_selects_its_language
        (langs : list string) (l : string) (more : list (option string)) :
  In l COMMON_LANGS ->
  In l langs ->
  select_language langs (Some (label l) :: more) = Selected l.
Proof.
  intros Hcommon Havail. unfold select_language. cbn [select_loop mbind option_bind].
  rewrite choices_of_label; [reflexivity| |].
  - apply NoDup_map_filter, common_labels_distinct.
  - apply filter_In. split; [exact Hcommon|].
    apply bool_decide_eq_true_2, list_elem_of_In. now apply available_In.
Qed.

Lemma common_label_selects_its_language_witness :
  select_language ["xx-yy"; "fr-fr"; "de-de"; "fr-fr"]
                  [Some (label "fr-fr"); Some "Exit"]
  = Selected "fr-fr".
Proof.
  apply common_label_selects_its_language; simpl; auto 10.
Defined.

(** * Properties of [load_all_lines] *)

Section LoadFacts.

Variable splitlines : string -> list string.
Variable strip : string -> string.

Local Abbreviation lines_of :=
  (fun h p => stripped_lines splitlines strip (file_text h p)).

Lemma path_exists_present p h :
  is_Some (fs h !! path_str p) -> path_exists p h = Res (Ret true) h [].
Proof.
  intros Hp. unfold path_exists. now rewrite bool_decide_eq_true_2.
Qed.

Lemma read_text_present p h :
  is_Some (fs h !! path_str p) ->
  read_text p h = Res (Ret (file_text h p)) h [].
Proof.
  intros [text Hp]. unfold read_text, file_text. now rewrite Hp.
Qed.

(** With every file on disk the loop collects their lines, in order. *)
Lemma load_loop_present paths :
  forall lines h,
    (forall p, In p paths -> is_Some (fs h !! path_str p)) ->
    load_loop splitlines strip paths lines h
    = Res (Ret (lines ++ flat_map (lines_of h) paths)) h [].
Proof.
  induction paths as [|p rest IH]; intros lines h Hall.
  - cbn. now rewrite app_nil_r.
  - cbn [load_loop flat_map].
    rewrite (bind_eq _ _ _ _ _ _ (path_exists_present p h (Hall p (or_introl eq_refl)))).
    rewrite bind_ret_l.
    rewrite (bind_eq _ _ _ _ _ _ (read_text_present p h (Hall p (or_introl eq_refl)))).
    rewrite IH by (intros q Hq; apply Hall; now right).
    cbn [outc post evs app]. now rewrite app_assoc.
Qed.

(** The loop stops at the first file that is not on disk. *)
Lemma load_loop_missing ok :
  forall p rest lines h,
    (forall q, In q ok -> is_Some (fs h !! path_str q)) ->
    fs h !! path_str p = None ->
    load_loop splitlines strip (ok ++ p :: rest) lines h
    = Res (Exit 1) h (fatal_events ("Missing file: " +:+ path_str p)).
Proof.
  induction ok as [|q ok IH]; intros p rest lines h Hall Hnone.
  - cbn [app load_loop].
    rewrite (bind_eq _ _ _ _ _ _ (path_exists_absent p h Hnone)).
    reflexivity.
  - cbn [app load_loop].
    rewrite (bind_eq _ _ _ _ _ _ (path_exists_present q h (Hall q (or_introl eq_refl)))).
    rewrite bind_ret_l.
    rewrite (bind_eq _ _ _ _ _ _ (read_text_present q h (Hall q (or_introl eq_refl)))).
    rewrite IH by (try exact Hnone; intros r Hr; apply Hall; now right).
    reflexivity.
Qed.

(** X20: when every input file is on disk, [load_all_lines] returns,
    with the host untouched and nothing printed, a list without
    duplicates whose members are exactly the stripped, non-empty lines
    of the files. *)
Theorem load_all_lines_collects
        (paths : list path) (h : host) :
  (forall p, In p paths -> is_Some (fs h !! path_str p)) ->
  exists lines,
    load_all_lines splitlines strip paths h = Res (Ret lines) h []
    /\ List.NoDup lines
    /\ forall x,
        In x lines
        <-> exists p raw,
              In p paths
              /\ In raw (splitlines (file_text h p))
              /\ strip raw = x
              /\ x <> EmptyString.
Proof.
  intros Hall. eexists. split; [|split].
  - unfold load_all_lines.
    rewrite (bind_eq _ _ _ _ _ _ (load_loop_present paths [] h Hall)).
    reflexivity.
  - apply NoDup_dict_fromkeys.
  - intros x. rewrite In_dict_fromkeys. cbn [app]. rewrite in_flat_map.
    unfold stripped_lines. split.
    + intros (p & Hp & Hx). apply in_map_iff in Hx as (raw & <- & Hraw).
      apply filter_In in Hraw as [Hraw Hne].
      exists p, raw. repeat split; try assumption.
      apply negb_true_iff, String.eqb_neq in Hne. exact Hne.
    + intros (p & raw & Hp & Hraw & <- & Hne).
      exists p. split; [exact Hp|]. apply in_map, filter_In.
      split; [exact Hraw|]. now apply negb_true_iff, String.eqb_neq.
Qed.

(** X21: at the first input file that is not on disk, [load_all_lines]
    logs [Missing file: ...] with that path, waits for Enter and ends
    with [sys.exit(1)]; the later files are not read. *)
Theorem load_all_lines_missing_file
        (ok : list path) (p : path) (rest : list path) (h : host) :
  (forall q, In q ok -> is_Some (fs h !! path_str q)) ->
  fs h !! path_str p = None ->
  load_all_lines splitlines strip (ok ++ p :: rest) h
  = Res (Exit 1) h (fatal_events ("Missing file: " +:+ path_str p)).
Proof.
  intros Hall Hnone. unfold load_all_lines, bind.
  now rewrite (load_loop_missing ok p rest [] h Hall Hnone).
Qed.

End LoadFacts.

(** * From the menu to the matcher *)

(** X22: the language that reaches the matcher, chosen in the menu
    among those [extract_languages] found, always has a manifest line
    whose decoded lowercase form contains the segment rule 1 tests. *)
Theorem chosen_language_reaches_rule_one
        (unquote lower : string -> string)
        (lines langs : list string) (answers : list (option string))
        (lang : string) :
  extract_languages unquote lower lines = Some langs ->
  select_language langs answers = Selected lang ->
  exists line,
    In line lines
    /\ str_in (lep_segment lang) (lower (unquote line)) = true.
Proof.
  unfold extract_languages, select_language. intros Hext Hsel.
  assert (Hin : In lang langs).
  { match type of Hsel with
    | select_loop ?cc ?ac _ = _ =>
        destruct (select_loop_spec cc ac (length answers) answers (le_n _))
        as [Hfrom _]
    end.
    destruct (Hfrom lang Hsel) as [[k Hk]|[k Hk]].
    - apply choices_of_values, filter_In in Hk as [_ Hk].
      apply bool_decide_eq_true_1, list_elem_of_In in Hk.
      now apply available_In.
    - apply choices_of_values in Hk. now apply available_In. }
  destruct (extract_loop_spec unquote lower lines ∅) as (out & Hout & _ & Hmem).
  rewrite Hout in Hext. injection Hext as <-.
  apply sorted_In, list_elem_of_In, elem_of_elements in Hin.
  destruct (Hmem lang Hin) as [Hempty|(line & Hline & Hseg & _)];
    [set_solver|].
  exists line. auto.
Qed.

Lemma chosen_language_reaches_rule_one_witness :
  exists line,
    In line Inputs.manifest
    /\ str_in (lep_segment "fr-fr") (Sample.decoded line) = true.
Proof.
  apply (chosen_language_reaches_rule_one
           AsciiLib.unquote AsciiLib.lower Inputs.manifest
           ["de-de"; "fr-fr"] [Some (label "fr-fr")] "fr-fr").
  - vm_compute. reflexivity.
  - vm_compute. reflexivity.
Defined.

(** * The added properties on sample runs *)


Lemma partial_file_is_taken_as_complete_witness :
  outc (download_file Sample.lang_pack_x64
          (Sample.cab Sample.lang_pack_x64) Cases.broken_network)
  = Raise "OSError"
  /\ List.filter is_transfer
       (evs (download_file Sample.lang_pack_x64
               (Sample.cab Sample.lang_pack_x64)
               (post (download_file Sample.lang_pack_x64
                        (Sample.cab Sample.lang_pack_x64)
                        Cases.broken_network))))
     = [].
Proof.
  destruct (partial_file_is_taken_as_complete
              Sample.lang_pack_x64 Sample.lang_pack_x64
              (Sample.cab Sample.lang_pack_x64)
              Cases.broken_network [Some "abc"; None])
    as (Hout & _ & Hagain); [reflexivity|reflexivity|reflexivity|].
  split; [exact Hout|]. now rewrite Hagain.
Defined.

Lemma existing_files_are_never_changed_witness :
  fs (post (Sample.run_main true true false Sample.three_cabs
              Cases.writes_intl))
  !! path_str (Sample.cab Sample.lang_pack_x64)
  = Some "old".
Proof.
  apply (existing_files_are_never_changed
           AsciiLib.unquote AsciiLib.lower AsciiLib.Path_name
           "D:\downloads\appx" "D:\downloads\cab"
           "fr-fr" "x64" "amd64" true true false
           Sample.three_cabs Cases.writes_intl).
  - vm_compute. reflexivity.
  - intros _ n cmd disk. cbn [Cases.writes_intl child_disk].
    destruct (String.eqb (hd EmptyString cmd) "powershell");
      [|reflexivity].
    apply lookup_insert_ne. discriminate.
Defined.

Lemma dry_run_downloads_the_same_witness :
  fs (post (Sample.run_main true true false Sample.three_cabs
              Cases.writes_intl))
  !! path_str (Sample.cab Sample.fod_basic)
  = fs (post (Sample.run_main true true true Sample.three_cabs
                Cases.writes_intl))
    !! path_str (Sample.cab Sample.fod_basic)
  /\ fs (post (Sample.run_main true true false Sample.three_cabs
                 Cases.writes_intl))
     !! "C:\Temp\intl.xml"
     <> fs (post (Sample.run_main true true true Sample.three_cabs
                    Cases.writes_intl))
        !! "C:\Temp\intl.xml".
Proof.
  split.
  - apply (dry_run_downloads_the_same
             AsciiLib.unquote AsciiLib.lower AsciiLib.Path_name
             "D:\downloads\appx" "D:\downloads\cab"
             "fr-fr" "x64" "amd64" true true
             Sample.three_cabs Cases.writes_intl).
    intros n cmd disk. cbn [Cases.writes_intl child_disk].
    destruct (String.eqb (hd EmptyString cmd) "powershell");
      [|reflexivity].
    apply lookup_insert_ne. discriminate.
  - vm_compute. discriminate.
Defined.

Lemma only_planned_urls_are_fetched_witness :
  In Sample.fod_basic [Sample.winpe_lang_pack; Sample.fod_basic]
  /\ is_winpe (Sample.decoded Sample.fod_basic) = false.
Proof.
  destruct (only_planned_urls_are_fetched
              AsciiLib.unquote AsciiLib.lower AsciiLib.Path_name
              "D:\downloads\appx" "D:\downloads\cab"
              "fr-fr" "x64" "amd64" true true true
              [Sample.winpe_lang_pack; Sample.fod_basic] Sample.all_ok
              Sample.fod_basic) as (Hline & Hpe & _).
  - vm_compute. tauto.
  - split; [exact Hline|exact Hpe].
Defined.

Lemma download_failure_aborts_witness :
  outc (Sample.run_main true true false Sample.three_cabs Cases.no_network)
  = Raise "URLError"
  /\ invocations
       (evs (Sample.run_main true true false Sample.three_cabs
                             Cases.no_network))
     = [].
Proof.
  destruct (download_failure_aborts
              AsciiLib.unquote AsciiLib.lower AsciiLib.Path_name
              "D:\downloads\appx" "D:\downloads\cab"
              "fr-fr" "x64" "amd64" true true false
              Sample.three_cabs Cases.no_network "URLError")
    as (Hout & _ & Hquiet).
  - vm_compute. discriminate.
  - vm_compute. reflexivity.
  - split; [exact Hout|exact Hquiet].
Defined.

Lemma any_failure_is_fatal_witness :
  outc (Sample.run_main true true false Cases.full_manifest
                        Cases.locale_fails)
  = Exit 1
  /\ length (invocations
               (evs (Sample.run_main true true false Cases.full_manifest
                                     Cases.locale_fails)))
     = 4%nat.
Proof.
  destruct (any_failure_is_fatal
              AsciiLib.unquote AsciiLib.lower AsciiLib.Path_name
              "D:\downloads\appx" "D:\downloads\cab"
              "fr-fr" "x64" "amd64" true true false
              Cases.full_manifest Cases.locale_fails
              3%nat (powershell_cmd (ps_cmd true true "fr-fr")) 3)
    as (Hout & Hlen & _).
  - vm_compute. reflexivity.
  - lia.
  - split; [exact Hout|exact Hlen].
Defined.


Lemma successful_run_witness :
  outc (Sample.run_main true true false Cases.full_manifest Cases.reboot_yes)
  = Ret tt
  /\ length (invocations
               (evs (Sample.run_main true true false Cases.full_manifest
                                     Cases.reboot_yes)))
     = 6%nat.
Proof.
  destruct (successful_run
              AsciiLib.unquote AsciiLib.lower AsciiLib.Path_name
              "D:\downloads\appx" "D:\downloads\cab"
              "fr-fr" "x64" "amd64" true true
              Cases.full_manifest Cases.reboot_yes
              ([Sample.appx Sample.license; Sample.appx Sample.lep_appx],
               [Sample.cab Sample.lang_pack_x64; Sample.cab Sample.fod_basic]))
    as [Hout Hinv].
  - vm_compute. discriminate.
  - vm_compute. reflexivity.
  - intros n cmd. reflexivity.
  - split; [exact Hout|].
    unfold Sample.run_main. rewrite Hinv. vm_compute. reflexivity.
Defined.

Lemma reboot_only_after_success_witness :
  outc (Sample.run_main true true false Cases.full_manifest Cases.reboot_yes)
  = Ret tt
  /\ wants_reboot Cases.reboot_yes = true.
Proof.
  destruct (reboot_only_after_success
              AsciiLib.unquote AsciiLib.lower AsciiLib.Path_name
              "D:\downloads\appx" "D:\downloads\cab"
              "fr-fr" "x64" "amd64" true true false
              Cases.full_manifest Cases.reboot_yes shutdown_cmd)
    as (_ & _ & Hyes & Hout & _).
  - vm_compute. tauto.
  - split; [exact Hout|exact Hyes].
Defined.

Lemma load_all_lines_collects_witness :
  exists lines,
    load_all_lines Inputs.splitlines Inputs.strip
                   [Inputs.exp_packs; Inputs.fod] Inputs.with_inputs
    = Res (Ret lines) Inputs.with_inputs []
    /\ List.NoDup lines
    /\ In "b" lines
    /\ ~ In EmptyString lines.
Proof.
  destruct (load_all_lines_collects
              Inputs.splitlines Inputs.strip
              [Inputs.exp_packs; Inputs.fod] Inputs.with_inputs)
    as (lines & Heq & Hnd & Hmem).
  - intros p [<-|[<-|[]]]; vm_compute; eauto.
  - exists lines. split; [exact Heq|]. split; [exact Hnd|]. split.
    + apply Hmem. exists Inputs.fod, "b".
      split; [right; left; reflexivity|].
      split; [vm_compute; tauto|].
      split; [reflexivity|discriminate].
    + intros Hin. apply Hmem in Hin as (_ & _ & _ & _ & _ & Hne).
      now apply Hne.
Defined.

Lemma load_all_lines_missing_file_witness :
  outc (load_all_lines Inputs.splitlines Inputs.strip
          [Inputs.exp_packs; MkPath "D:\tool" "other.dat"; Inputs.fod]
          Inputs.with_inputs)
  = Exit 1.
Proof.
  change [Inputs.exp_packs; MkPath "D:\tool" "other.dat"; Inputs.fod]
    with ([Inputs.exp_packs]
            ++ MkPath "D:\tool" "other.dat" :: [Inputs.fod]).
  rewrite (load_all_lines_missing_file
             Inputs.splitlines Inputs.strip
             [Inputs.exp_packs] (MkPath "D:\tool" "other.dat") [Inputs.fod]
             Inputs.with_inputs).
  - reflexivity.
  - intros q [<-|[]]. vm_compute. eauto.
  - vm_compute. reflexivity.
Defined.
